(** * ccboot: the CC2650 serial bootloader client

    A shallow embedding of the packet codec, the link layer and the
    commands of [ccboot.go], with the constants and [Command.Marshal] of
    [types.go]. [Sync], the string renderings and [decodeCmdPacket] are
    left out.

    - Go's [byte] and [uint32] are modelled as [Z] with the wrap-around of
      every arithmetic operation written out; Go's [int] is [Z].
    - A [[]byte] is a [list Z]; indexing and slicing out of range panic, as
      they do in Go.
    - [Device.port] is an [io.ReadWriteCloser] owned by the caller. It is
      modelled as a script: what the k-th [Read] into a one-byte buffer and
      the k-th [Write] answer. The errors it hands back are values of its
      own ([ErrIO]), never the sentinel errors of this package. The state
      threaded through the code is the number of reads made, the log of
      the buffers handed to [Write], and the number of lines logged.
    - The [for { ... }] loops of [recvNonZero] and [recvByte] have no bound
      of their own and take a fuel argument; running out of fuel is a
      result of its own, so a run that never returns is visible as such. *)

From Stdlib Require Import ZArith Lia Bool.
From stdpp Require Import list.

Local Open Scope Z_scope.

(* ------------------------------------------------------------------ *)
(** ** Errors and results *)

(** The package's sentinel errors, and [ErrIO] for whatever error value the
    transport itself hands back (it is propagated untouched). *)
Inductive error : Type :=
  | ErrSerial
  | ErrDevice
  | ErrDeviceTimeout
  | ErrBadPacket
  | ErrBadArguments
  | ErrNotImplemented
  | ErrIO (code : nat).

(** What a call can do: return a value, return an error, panic (index or
    slice out of range), or still be looping when the fuel is spent. *)
Inductive result (A : Type) : Type :=
  | Ok (a : A)
  | Err (e : error)
  | Panic
  | OutOfFuel.

Arguments Ok {A} a.
Arguments Err {A} e.
Arguments Panic {A}.
Arguments OutOfFuel {A}.

Definition bindR {A B : Type} (r : result A) (k : A -> result B) : result B :=
  match r with
  | Ok a => k a
  | Err e => Err e
  | Panic => Panic
  | OutOfFuel => OutOfFuel
  end.

Notation "'do' x <- r ; k" := (bindR r (fun x => k))
  (at level 10, x name, r at level 100, k at level 200).

(* ------------------------------------------------------------------ *)
(** ** Slices of bytes *)

Definition len (l : list Z) : Z := Z.of_nat (length l).

(** [make([]byte, n)] *)
Definition make (n : Z) : list Z := replicate (Z.to_nat n) 0.

(** [l[i]] *)
Definition index (l : list Z) (i : nat) : result Z :=
  match l !! i with
  | Some b => Ok b
  | None => Panic
  end.

(** [l[i:]] *)
Definition slice_from (l : list Z) (i : nat) : result (list Z) :=
  if (i <=? length l)%nat then Ok (drop i l) else Panic.

(** [l[i] = b] *)
Definition store (l : list Z) (i : nat) (b : Z) : result (list Z) :=
  if (i <? length l)%nat then Ok (<[i:=b]> l) else Panic.

(** [copy(dst[off:], src)]: as many bytes as fit. *)
Definition copy_at (off : nat) (dst src : list Z) : list Z :=
  take off dst ++ take (length dst - off) src ++ drop (off + length src) dst.

(** [byte(x)] for an integer [x]: the low eight bits. *)
Definition to_byte (x : Z) : Z := x mod 256.

Definition is_byte (b : Z) : Prop := 0 <= b < 256.
Definition is_uint32 (x : Z) : Prop := 0 <= x < 2 ^ 32.

(* ------------------------------------------------------------------ *)
(** ** types.go *)

Definition CC_ACK : Z := 0xCC.
Definition CC_NACK : Z := 0x33.

Definition COMMAND_PING : Z := 0x20.
Definition COMMAND_DOWNLOAD : Z := 0x21.
Definition COMMAND_GET_STATUS : Z := 0x23.
Definition COMMAND_SEND_DATA : Z := 0x24.
Definition COMMAND_RESET : Z := 0x25.
Definition COMMAND_SECTOR_ERASE : Z := 0x26.
Definition COMMAND_CRC32 : Z := 0x27.
Definition COMMAND_GET_CHIP_ID : Z := 0x28.
Definition COMMAND_MEMORY_READ : Z := 0x2A.
Definition COMMAND_MEMORY_WRITE : Z := 0x2B.
Definition COMMAND_BANK_ERASE : Z := 0x2C.
Definition COMMAND_SET_CCFG : Z := 0x2D.

Record Command : Type := mkCommand {
  Type_ : Z;
  Parameters : list Z
}.

Definition SendDataMaxSize : Z := 255 - 3.

Definition ReadWriteType8Bit : Z := 0.
Definition ReadWriteType32Bit : Z := 1.

Definition ReadMaxCount8Bit : Z := 253.
Definition ReadMaxCount32Bit : Z := 63.
Definition WriteMaxCount8Bit : Z := 247.
Definition WriteMaxCount32Bit : Z := 244.

(** [Command.Marshal] *)
Definition Marshal (c : Command) : list Z :=
  let size := 1 + len (Parameters c) in
  let buf := make size in
  let buf := <[0%nat := to_byte (Type_ c)]> buf in
  copy_at 1 buf (Parameters c).

(* ------------------------------------------------------------------ *)
(** ** ccboot.go: marshaling helpers *)

Definition numAttempts : Z := 3.

(** [checksum]: [sum += b] on a [byte] wraps modulo 256. *)
Definition checksum (data : list Z) : Z :=
  fold_left (fun sum b => (sum + b) mod 256) data 0.

Definition encodeSize (size : Z) : Z := to_byte (Z.land size 0xFF).

Definition encodePacket (data : list Z) : list Z :=
  let size := 2 + len data in
  let buf := make size in
  let buf := <[0%nat := encodeSize size]> buf in
  let buf := <[1%nat := checksum data]> buf in
  copy_at 2 buf data.

Definition decodePacket (pkt : list Z) : result (list Z) :=
  if len pkt <? 3 then Err ErrBadPacket
  else
    do b0 <- index pkt 0;
    if negb (encodeSize (len pkt) =? b0) then Err ErrBadPacket
    else
      do rest <- slice_from pkt 2;
      do b1 <- index pkt 1;
      if negb (checksum rest =? b1) then Err ErrBadPacket
      else slice_from pkt 2.

Definition encodeCmdPacket (cmd : Z) (parameters : list Z) : list Z :=
  encodePacket (Marshal (mkCommand cmd parameters)).

(** The packet invariant in the words of the specification: the sum of the
    payload bytes, reduced modulo 256 once at the end. *)
Definition sum_bytes (l : list Z) : Z := fold_right Z.add 0 l.

(* ------------------------------------------------------------------ *)
(** ** The transport and the state of a run *)

(** What one [port.Read(buf)] with a one-byte [buf] answers: an error, or a
    count [n] together with the content of [buf[0]] afterwards. *)
Inductive ReadRes : Type :=
  | ReadErr (code : nat)
  | ReadLen (n : Z) (b : Z).

(** What one [port.Write(buf)] answers: an error, or the count written. *)
Inductive WriteRes : Type :=
  | WriteErr (code : nat)
  | WriteLen (n : Z).

(** The port: the answer to the k-th read, and to the k-th write of a given
    buffer. *)
Record Port : Type := mkPort {
  Read : nat -> ReadRes;
  Write : nat -> list Z -> WriteRes
}.

Record State : Type := mkState {
  nread : nat;              (* calls of port.Read so far *)
  wlog : list (list Z);     (* the buffers handed to port.Write, in order *)
  nlog : nat                (* lines printed with log.Printf *)
}.

(** [st'] differs from [st] by reads only: neither the write log nor the
    printed lines have changed. *)
Definition same_output (st st' : State) : Prop :=
  wlog st' = wlog st /\ nlog st' = nlog st.

Definition M (A : Type) : Type := State -> result A * State.

Definition retM {A : Type} (a : A) : M A := fun st => (Ok a, st).
Definition failM {A : Type} (e : error) : M A := fun st => (Err e, st).
Definition liftR {A : Type} (r : result A) : M A := fun st => (r, st).

Definition bindM {A B : Type} (m : M A) (k : A -> M B) : M B :=
  fun st =>
    match m st with
    | (Ok a, st') => k a st'
    | (Err e, st') => (Err e, st')
    | (Panic, st') => (Panic, st')
    | (OutOfFuel, st') => (OutOfFuel, st')
    end.

Notation "'doM' x <- m ; k" := (bindM m (fun x => k))
  (at level 10, x name, m at level 100, k at level 200).

Definition log_Printf : M unit :=
  fun st => (Ok tt, mkState (nread st) (wlog st) (S (nlog st))).

Section Device.

Variable d : Port.

Definition port_Read : M ReadRes :=
  fun st => (Ok (Read d (nread st)), mkState (S (nread st)) (wlog st) (nlog st)).

Definition port_Write (buf : list Z) : M WriteRes :=
  fun st => (Ok (Write d (length (wlog st)) buf),
             mkState (nread st) (wlog st ++ [buf]) (nlog st)).

(* ------------------------------------------------------------------ *)
(** ** Low level serial interface *)

(** The [for { ... }] of [recvNonZero]; [attempts] is its local counter. *)
Fixpoint recvNonZero_loop (fuel : nat) (attempts : Z) : M Z :=
  match fuel with
  | O => liftR OutOfFuel
  | S fuel' =>
    if attempts >? numAttempts then failM ErrDeviceTimeout
    else
      doM r <- port_Read ;
      match r with
      | ReadErr c => failM (ErrIO c)
      | ReadLen n b =>
        if n =? 0 then recvNonZero_loop fuel' (attempts + 1)
        else if n =? 1 then
          if b =? 0x00 then recvNonZero_loop fuel' attempts
          else retM b
        else failM ErrSerial
      end
  end.

Definition recvNonZero (fuel : nat) : M Z := recvNonZero_loop fuel 0.

Fixpoint recvByte_loop (fuel : nat) (attempts : Z) : M Z :=
  match fuel with
  | O => liftR OutOfFuel
  | S fuel' =>
    if attempts >? numAttempts then failM ErrDeviceTimeout
    else
      doM r <- port_Read ;
      match r with
      | ReadErr c => failM (ErrIO c)
      | ReadLen n b =>
        if n =? 0 then recvByte_loop fuel' (attempts + 1)
        else if n =? 1 then retM b
        else failM ErrSerial
      end
  end.

Definition recvByte (fuel : nat) : M Z := recvByte_loop fuel 0.

Definition recvAck (fuel : nat) : M Z := recvNonZero fuel.

Definition sendAck (ack : Z) : M unit :=
  let buf := make 1 in
  doM buf <- liftR (store buf 0 ack) ;
  doM w <- port_Write buf ;
  match w with
  | WriteErr c => failM (ErrIO c)
  | WriteLen n => if negb (n =? 1) then failM ErrSerial else retM tt
  end.

(* ------------------------------------------------------------------ *)
(** ** Packet abstraction layer *)

(** The [for attempt := 0; attempt < numAttempts; attempt++] of
    [SendPacket], by recursion on the attempts that are left. *)
Fixpoint SendPacket_loop (fuel : nat) (pkt : list Z) (left : nat) : M unit :=
  match left with
  | O => failM ErrDevice
  | S left' =>
    doM w <- port_Write pkt ;
    match w with
    | WriteErr c => failM (ErrIO c)
    | WriteLen n =>
      if negb (n =? len pkt) then failM ErrSerial
      else fun st =>
        match recvAck fuel st with
        | (Err ErrDeviceTimeout, st') => SendPacket_loop fuel pkt left' st'
        | (Err e, st') => (Err e, st')
        | (Ok ack, st') =>
          if ack =? CC_ACK then (Ok tt, st')
          else SendPacket_loop fuel pkt left' st'
        | (Panic, st') => (Panic, st')
        | (OutOfFuel, st') => (OutOfFuel, st')
        end
    end
  end.

Definition SendPacket (fuel : nat) (pkt : list Z) : M unit :=
  SendPacket_loop fuel pkt (Z.to_nat numAttempts).

(** The [for count := 1; count < int(size); count++] of [RecvPacket];
    [todo] is [int(size) - count]. *)
Fixpoint recvRest (fuel : nat) (todo : nat) (count : nat) (pkt : list Z) : M (list Z) :=
  match todo with
  | O => retM pkt
  | S todo' =>
    doM b <- recvByte fuel ;
    doM pkt' <- liftR (store pkt count b) ;
    recvRest fuel todo' (S count) pkt'
  end.

(** The first half of the body of [RecvPacket]'s loop: the size byte and
    the rest of the frame. *)
Definition recvFrame (fuel : nat) : M (list Z) :=
  doM size <- recvNonZero fuel ;
  doM pkt <- liftR (store (make size) 0 size) ;
  recvRest fuel (Z.to_nat (size - 1)) 1 pkt.

Fixpoint RecvPacket_loop (fuel : nat) (left : nat) : M (list Z) :=
  match left with
  | O => failM ErrDevice
  | S left' =>
    doM pkt <- recvFrame fuel ;
    match decodePacket pkt with
    | Ok data =>
      doM _u <- sendAck CC_ACK ;
      retM data
    | Err _ =>
      doM _u <- sendAck CC_NACK ;
      RecvPacket_loop fuel left'
    | Panic => liftR Panic
    | OutOfFuel => liftR OutOfFuel
    end
  end.

Definition RecvPacket (fuel : nat) : M (list Z) :=
  RecvPacket_loop fuel (Z.to_nat numAttempts).

(* ------------------------------------------------------------------ *)
(** ** High level commands *)

(** [byte((x >> (i * 8)) & 0xFF)] *)
Definition byte_at (x : Z) (i : Z) : Z :=
  to_byte (Z.land (Z.shiftr x (i * 8)) 0xFF).

(** The four bytes every command lays out for a [uint32] argument. *)
Definition be32 (x : Z) : list Z :=
  [byte_at x 3; byte_at x 2; byte_at x 1; byte_at x 0].

(** [uint32(b) << (i * 8)] *)
Definition shl32 (b : Z) (i : Z) : Z := Z.shiftl b (i * 8) mod 2 ^ 32.

Definition Ping (fuel : nat) : M unit :=
  SendPacket fuel (encodeCmdPacket COMMAND_PING []).

Definition Download (fuel : nat) (address size : Z) : M unit :=
  let data := be32 address ++ be32 size in
  SendPacket fuel (encodeCmdPacket COMMAND_DOWNLOAD data).

Definition SendData (fuel : nat) (data : list Z) : M unit :=
  if len data >? SendDataMaxSize then failM ErrBadArguments
  else SendPacket fuel (encodeCmdPacket COMMAND_SEND_DATA data).

Definition SectorErase (fuel : nat) (address : Z) : M unit :=
  SendPacket fuel (encodeCmdPacket COMMAND_SECTOR_ERASE (be32 address)).

Definition GetStatus (fuel : nat) : M Z :=
  doM _u <- SendPacket fuel (encodeCmdPacket COMMAND_GET_STATUS []) ;
  doM data <- RecvPacket fuel ;
  if negb (len data =? 1) then failM ErrDevice
  else liftR (index data 0).

Definition Reset (fuel : nat) : M unit :=
  SendPacket fuel (encodeCmdPacket COMMAND_RESET []).

Definition GetChipID (fuel : nat) : M Z :=
  let id := 0 in
  doM _u <- SendPacket fuel (encodeCmdPacket COMMAND_GET_CHIP_ID []) ;
  doM data <- RecvPacket fuel ;
  if negb (len data =? 4) then failM ErrDevice
  else
    doM b0 <- liftR (index data 0) ;
    let id := Z.lor id (shl32 b0 3) in
    doM b1 <- liftR (index data 1) ;
    let id := Z.lor id (shl32 b1 2) in
    doM b2 <- liftR (index data 2) ;
    let id := Z.lor id (shl32 b2 1) in
    doM b3 <- liftR (index data 3) ;
    let id := Z.lor id (shl32 b3 0) in
    retM id.

Definition CRC32 (fuel : nat) (address size rcount : Z) : M Z :=
  let crc := 0 in
  let data := be32 address ++ be32 size ++ be32 rcount in
  doM _u <- SendPacket fuel (encodeCmdPacket COMMAND_CRC32 data) ;
  doM data <- RecvPacket fuel ;
  doM b0 <- liftR (index data 0) ;
  let crc := Z.lor crc (shl32 b0 3) in
  doM b1 <- liftR (index data 1) ;
  let crc := Z.lor crc (shl32 b1 2) in
  doM b2 <- liftR (index data 2) ;
  let crc := Z.lor crc (shl32 b2 1) in
  doM b3 <- liftR (index data 3) ;
  let crc := Z.lor crc (shl32 b3 0) in
  retM crc.

Definition BankErase (fuel : nat) : M unit :=
  SendPacket fuel (encodeCmdPacket COMMAND_BANK_ERASE []).

Definition MemoryRead (fuel : nat) (address typ count : Z) : M (list Z) :=
  if (typ =? ReadWriteType8Bit) && (count >? ReadMaxCount8Bit)
  then failM ErrBadArguments
  else if (typ =? ReadWriteType32Bit) && (count >? ReadMaxCount32Bit)
  then failM ErrBadArguments
  else
    let data := be32 address ++ [to_byte typ; to_byte count] in
    doM _u <- SendPacket fuel (encodeCmdPacket COMMAND_MEMORY_READ data) ;
    RecvPacket fuel.

Definition MemoryWrite (fuel : nat) (address typ : Z) (data : list Z) : M unit :=
  if (typ =? ReadWriteType8Bit) && (to_byte (len data) >? WriteMaxCount8Bit)
  then failM ErrBadArguments
  else if (typ =? ReadWriteType32Bit) && (to_byte (len data) >? WriteMaxCount32Bit)
  then failM ErrBadArguments
  else
    doM _u <- (if (typ =? ReadWriteType32Bit) && negb (len data mod 4 =? 0)
            then log_Printf else retM tt) ;
    let buf := be32 address ++ [to_byte typ] in
    let buf := buf ++ data in
    SendPacket fuel (encodeCmdPacket COMMAND_MEMORY_WRITE buf).

Definition SetCCFG (fuel : nat) (id value : Z) : M unit :=
  let data := be32 id ++ be32 value in
  SendPacket fuel (encodeCmdPacket COMMAND_CRC32 data).

End Device.

(* ------------------------------------------------------------------ *)
(** ** Scripted transports *)

(** A well-behaved write side: every write is complete. *)
Definition write_all (k : nat) (buf : list Z) : WriteRes := WriteLen (len buf).

(** The reads answer the script in order; once it is used up every read
    times out ([n = 0]). *)
Definition script_port (script : list ReadRes) : Port :=
  mkPort (fun k => nth k script (ReadLen 0 0)) write_all.

(** The device sends the bytes [bs], one per read, then nothing. *)
Definition bytes_port (bs : list Z) : Port :=
  script_port (map (ReadLen 1) bs).

(** [n] padding zeros, then the byte [b] for ever. *)
Definition zeros_then_port (n : nat) (b : Z) : Port :=
  mkPort (fun k => if (k <? n)%nat then ReadLen 1 0x00 else ReadLen 1 b) write_all.

(** A device that pads for ever. *)
Definition all_zero_port : Port :=
  mkPort (fun _ => ReadLen 1 0x00) write_all.

Definition init : State := mkState 0 [] 0.

(** Every write of the buffer [buf] on the port [d] is complete. *)
Definition writes_ok (d : Port) (buf : list Z) : Prop :=
  forall k, Write d k buf = WriteLen (len buf).

(* ------------------------------------------------------------------ *)
(** ** Attempts of [SendPacket], one at a time *)

(** The state once [buf] has been handed to [port.Write]. *)
Definition after_write (st : State) (buf : list Z) : State :=
  mkState (nread st) (wlog st ++ [buf]) (nlog st).

(** The state once one more [port.Read] has been made. *)
Definition read_done (st : State) : State :=
  mkState (S (nread st)) (wlog st) (nlog st).

(** One attempt from [st]: the frame is written in full and the
    acknowledgment read, which ends in [st'], yields [ACK]. *)
Definition acked (d : Port) (fuel : nat) (pkt : list Z) (st st' : State) : Prop :=
  (Write d (length (wlog st)) pkt = WriteLen (len pkt))
  /\ recvAck d fuel (after_write st pkt) = (Ok CC_ACK, st').

(** One attempt from [st]: the frame is written in full and the
    acknowledgment read times out or yields a byte other than [ACK]. *)
Definition unanswered (d : Port) (fuel : nat) (pkt : list Z) (st st' : State) : Prop :=
  (Write d (length (wlog st)) pkt = WriteLen (len pkt))
  /\ (recvAck d fuel (after_write st pkt) = (Err ErrDeviceTimeout, st')
      \/ exists b, b <> CC_ACK /\ recvAck d fuel (after_write st pkt) = (Ok b, st')).

(** [k] unanswered attempts in a row lead from [st] to [st']. *)
Inductive send_retries (d : Port) (fuel : nat) (pkt : list Z) : nat -> State -> State -> Prop :=
  | send_retries_O (st : State) : send_retries d fuel pkt 0 st st
  | send_retries_S (k : nat) (st st1 st' : State) :
      unanswered d fuel pkt st st1 ->
      send_retries d fuel pkt k st1 st' ->
      send_retries d fuel pkt (S k) st st'.

(* ------------------------------------------------------------------ *)
(** ** Attempts of [RecvPacket], one at a time *)

(** One attempt from [st]: a frame is assembled, [decodePacket] rejects it,
    and the single byte [NACK] is written in full. *)
Definition bad_frame (d : Port) (fuel : nat) (st st' : State) : Prop :=
  exists pkt st1,
    recvFrame d fuel st = (Ok pkt, st1)
    /\ decodePacket pkt = Err ErrBadPacket
    /\ Write d (length (wlog st1)) [CC_NACK] = WriteLen 1
    /\ st' = after_write st1 [CC_NACK].

(** One attempt from [st]: a frame is assembled, [decodePacket] accepts it
    with payload [data], and the single byte [ACK] is written in full. *)
Definition good_frame (d : Port) (fuel : nat) (st : State) (data : list Z) (st' : State) : Prop :=
  exists pkt st1,
    recvFrame d fuel st = (Ok pkt, st1)
    /\ decodePacket pkt = Ok data
    /\ Write d (length (wlog st1)) [CC_ACK] = WriteLen 1
    /\ st' = after_write st1 [CC_ACK].

(** [k] bad frames in a row lead from [st] to [st']. *)
Inductive recv_retries (d : Port) (fuel : nat) : nat -> State -> State -> Prop :=
  | recv_retries_O (st : State) : recv_retries d fuel 0 st st
  | recv_retries_S (k : nat) (st st1 st' : State) :
      bad_frame d fuel st st1 ->
      recv_retries d fuel k st1 st' ->
      recv_retries d fuel (S k) st st'.

(** The errors the byte-level reads can end in. *)
Definition link_error (e : error) : Prop :=
  e = ErrDeviceTimeout \/ e = ErrSerial \/ exists c, e = ErrIO c.

(** [m] reads but never writes or prints. *)
Definition reads_only {A : Type} (m : M A) : Prop :=
  forall st, same_output st (snd (m st)).

(** [m] fails with a [link_error] if it fails. *)
Definition fails_link {A : Type} (m : M A) : Prop :=
  forall st e, fst (m st) = Err e -> link_error e.

(* ------------------------------------------------------------------ *)
(** ** Commands that pass their argument check *)

(** A command run from [st] got past its argument check: it did not answer
    [ErrBadArguments], and the first thing it handed to the port is
    [frame]. *)
Definition sent_first {A : Type} (frame : list Z) (st : State) (run : result A * State) : Prop :=
  fst run <> Err ErrBadArguments
  /\ exists rest, wlog (snd run) = wlog st ++ frame :: rest.

(* ------------------------------------------------------------------ *)
(** ** Kinds of reads, as [recvNonZero] tells them apart *)

(** A read that timed out: no error, no byte. *)
Definition is_empty (r : ReadRes) : bool :=
  match r with
  | ReadLen n _ => n =? 0
  | ReadErr _ => false
  end.

(** A read that delivered the padding byte [0x00]. *)
Definition is_padding (r : ReadRes) : bool :=
  match r with
  | ReadLen n b => (n =? 1) && (b =? 0x00)
  | ReadErr _ => false
  end.

(** A read that ends [recvNonZero]: a nonzero byte, or a failure of the
    transport (an error value, or a count that a one-byte buffer cannot
    have, which the code reports as [ErrSerial]). *)
Definition ends_wait (r : ReadRes) : bool :=
  negb (is_empty r || is_padding r).

(** The empty reads among the [m] reads from the k-th on. *)
Fixpoint count_empty (d : Port) (k m : nat) : nat :=
  match m with
  | O => 0
  | S m' => ((if is_empty (Read d k) then 1 else 0) + count_empty d (S k) m')%nat
  end.

(* ------------------------------------------------------------------ *)
(** ** Decoding helpers of [types.go] and [ccboot.go] *)

(** [Command.Unmarshal]: the command read off [data]. *)
Definition Unmarshal (data : list Z) : result Command :=
  if len data <? 1 then Err ErrBadPacket
  else
    do t <- index data 0;
    do ps <- slice_from data 1;
    Ok (mkCommand t ps).

Definition decodeCmdPacket (pkt : list Z) : result Command :=
  do data <- decodePacket pkt;
  Unmarshal data.

(** Subtraction on [uint], [w] bits wide. *)
Definition uint_sub (w a b : Z) : Z := (a - b) mod 2 ^ w.

(** The [for i := 0; i < len(value) && i < 4; i++] of [decodeUint32];
    [todo] bounds the turns that are left. *)
Fixpoint decodeUint32_loop (w msbShift : Z) (value : list Z) (todo i : nat) (u : Z) : result Z :=
  match todo with
  | O => Ok u
  | S todo' =>
    if (Z.of_nat i <? len value) && (Z.of_nat i <? 4) then
      do b <- index value i;
      let shift := (uint_sub w msbShift (Z.of_nat i) * 8) mod 2 ^ w in
      decodeUint32_loop w msbShift value todo' (S i)
        (Z.lor u (Z.shiftl (to_byte b) shift mod 2 ^ 32))
    else Ok u
  end.

(** [decodeUint32], on a platform whose [uint] is [w] bits wide. *)
Definition decodeUint32 (w : Z) (value : list Z) : result Z :=
  let msbShift := if len value <? 4 then uint_sub w (len value) 1 else 3 in
  decodeUint32_loop w msbShift value 4 0 0.

(** The number that the bytes [l] spell, most significant byte first. *)
Definition be_value (l : list Z) : Z :=
  fold_left (fun acc b => acc * 256 + b) l 0.

(* ------------------------------------------------------------------ *)
(** ** Sync *)

Definition CC_SYNC : list Z := [0x55; 0x55].

(** What [port.Read(buf)] with the 100-byte buffer of [Sync] answers: an
    error, or a count [n] and the bytes [data] put at the front of [buf]. *)
Inductive ReadBufRes : Type :=
  | ReadBufErr (code : nat)
  | ReadBufLen (n : Z) (data : list Z).

(** A port together with its answers to reads into the large buffer. *)
Record BufPort : Type := mkBufPort {
  port : Port;
  ReadBuf : nat -> ReadBufRes
}.

(** The [for attempt := 0; attempt < numAttempts; attempt++] of [Sync],
    by recursion on the attempts that are left. [time.Sleep] has no effect
    on the state. *)
Fixpoint Sync_loop (d : BufPort) (left : nat) : M unit :=
  match left with
  | O => failM ErrDevice
  | S left' =>
    let buf := make 100 in
    doM w <- port_Write (port d) CC_SYNC ;
    match w with
    | WriteErr c => failM (ErrIO c)
    | WriteLen n =>
      if negb (n =? len CC_SYNC) then failM ErrSerial
      else fun st =>
        let st' := read_done st in
        match ReadBuf d (nread st) with
        | ReadBufErr c => (Err (ErrIO c), st')
        | ReadBufLen n data =>
          let buf := copy_at 0 buf data in
          if negb (n =? 2) then Sync_loop d left' st'
          else
            match index buf 0, index buf 1 with
            | Ok b0, Ok b1 =>
              if (b0 =? 0x00) && (b1 =? CC_ACK) then (Ok tt, st')
              else Sync_loop d left' st'
            | _, _ => (Panic, st')
            end
        end
    end
  end.

Definition Sync (d : BufPort) : M unit := Sync_loop d (Z.to_nat numAttempts).

(** The k-th read into the large buffer is the answer [Sync] waits for:
    two bytes, [0x00] and [ACK]. *)
Definition sync_answer (d : BufPort) (k : nat) : bool :=
  match ReadBuf d k with
  | ReadBufErr _ => false
  | ReadBufLen n data =>
    (n =? 2) && match data with
                | b0 :: b1 :: _ => (b0 =? 0x00) && (b1 =? CC_ACK)
                | _ => false
                end
  end.

(** The k-th read into the large buffer is not an error. *)
Definition sync_read_ok (d : BufPort) (k : nat) : Prop :=
  exists n data, ReadBuf d k = ReadBufLen n data.

(* ------------------------------------------------------------------ *)
(** ** Well-formed transports *)

(** Every byte the port delivers is a byte. *)
Definition port_bytes_ok (d : Port) : Prop :=
  forall k n b, Read d k = ReadLen n b -> is_byte b.

(** From the state [st] on, the port delivers the bytes [bs], one per
    read. *)
Definition delivers (d : Port) (st : State) (bs : list Z) : Prop :=
  forall i b, bs !! i = Some b -> Read d (nread st + i) = ReadLen 1 b.

(** [st] after [m] more reads. *)
Definition reads_done (m : nat) (st : State) : State :=
  mkState (nread st + m) (wlog st) (nlog st).

(** The device is silent: every read times out. *)
Definition silent (d : Port) : Prop :=
  forall k, is_empty (Read d k) = true.

(** [m] does not panic, and what it returns satisfies [Q]. *)
Definition post {A : Type} (m : M A) (Q : A -> Prop) : Prop :=
  forall st,
    match fst (m st) with
    | Ok a => Q a
    | Panic => False
    | Err _ | OutOfFuel => True
    end.

(* ------------------------------------------------------------------ *)
(** ** Facts about the helpers *)

Lemma len_nonneg (l : list Z) : 0 <= len l.
Proof. unfold len. lia. Qed.

Lemma len_cons (b : Z) (l : list Z) : len (b :: l) = 1 + len l.
Proof. unfold len. cbn [length]. lia. Qed.

Lemma copy_at_fits (off : nat) (pre fill src : list Z) :
  length pre = off -> length fill = length src ->
  copy_at off (pre ++ fill) src = pre ++ src.
Proof.
  intros Hp Hf. unfold copy_at.
  rewrite take_app_length' by (symmetry; exact Hp).
  rewrite length_app, Hp.
  replace (off + length fill - off)%nat with (length src) by lia.
  rewrite firstn_all.
  rewrite drop_ge by (rewrite length_app; lia).
  now rewrite app_nil_r.
Qed.

Lemma make_succ (n : nat) : make (Z.of_nat (S n)) = 0 :: make (Z.of_nat n).
Proof. unfold make. now rewrite !Nat2Z.id. Qed.

Lemma length_make (n : nat) : length (make (Z.of_nat n)) = n.
Proof. unfold make. now rewrite Nat2Z.id, length_replicate. Qed.

Lemma encodePacket_eq (data : list Z) :
  encodePacket data = encodeSize (2 + len data) :: checksum data :: data.
Proof.
  unfold encodePacket, len.
  replace (2 + Z.of_nat (length data)) with (Z.of_nat (S (S (length data)))) by lia.
  rewrite !make_succ. cbn [list_insert insert].
  apply (copy_at_fits 2 [_; _]); [reflexivity | apply length_make].
Qed.

Lemma Marshal_eq (cmd : Z) (parameters : list Z) :
  Marshal (mkCommand cmd parameters) = to_byte cmd :: parameters.
Proof.
  unfold Marshal, len. cbn [Parameters Type_].
  replace (1 + Z.of_nat (length parameters)) with (Z.of_nat (S (length parameters))) by lia.
  rewrite make_succ. cbn [list_insert insert].
  apply (copy_at_fits 1 [_]); [reflexivity | apply length_make].
Qed.

Lemma checksum_acc (l : list Z) (acc : Z) :
  fold_left (fun sum b => (sum + b) mod 256) l acc mod 256 = (acc + sum_bytes l) mod 256.
Proof.
  revert acc. induction l as [|b l IH]; intros acc; cbn [fold_left sum_bytes fold_right].
  - now rewrite Z.add_0_r.
  - rewrite IH. fold (sum_bytes l).
    rewrite Zplus_mod_idemp_l. f_equal. lia.
Qed.

Lemma checksum_acc_range (l : list Z) (acc : Z) :
  is_byte acc -> is_byte (fold_left (fun sum b => (sum + b) mod 256) l acc).
Proof.
  revert acc. induction l as [|b l IH]; intros acc H; cbn [fold_left]; [exact H|].
  apply IH. apply Z.mod_pos_bound. lia.
Qed.

Lemma checksum_range (l : list Z) : is_byte (checksum l).
Proof. apply checksum_acc_range. unfold is_byte. lia. Qed.

(** The wrapping loop computes the sum of the bytes modulo 256. *)
Lemma checksum_sum (l : list Z) : checksum l = sum_bytes l mod 256.
Proof.
  rewrite <- (Z.mod_small (checksum l) 256) by apply checksum_range.
  unfold checksum. now rewrite checksum_acc.
Qed.

Lemma encodeSize_mod (size : Z) : encodeSize size = size mod 256.
Proof.
  unfold encodeSize, to_byte.
  change 0xFF with (Z.ones 8). rewrite Z.land_ones by lia.
  change (2 ^ 8) with 256. now rewrite Z.mod_mod by lia.
Qed.

(* ------------------------------------------------------------------ *)
(** ** The packet codec *)

Lemma decodePacket_cons2 (b0 b1 : Z) (rest : list Z) :
  3 <= len (b0 :: b1 :: rest) ->
  decodePacket (b0 :: b1 :: rest) =
    if negb (len (b0 :: b1 :: rest) mod 256 =? b0) then Err ErrBadPacket
    else if negb (sum_bytes rest mod 256 =? b1) then Err ErrBadPacket
    else Ok rest.
Proof.
  intros Hlen. unfold decodePacket.
  destruct (len (b0 :: b1 :: rest) <? 3) eqn:E; [lia|].
  rewrite encodeSize_mod. cbn [index lookup list_lookup bindR].
  destruct (negb _); [reflexivity|].
  cbn [slice_from length Nat.leb drop bindR].
  now rewrite checksum_sum.
Qed.

Lemma decodePacket_encodePacket (P : list Z) :
  1 <= len P -> decodePacket (encodePacket P) = Ok P.
Proof.
  intros H. rewrite encodePacket_eq, decodePacket_cons2, encodeSize_mod
    by (rewrite !len_cons; lia).
  rewrite !len_cons, checksum_sum.
  replace (1 + (1 + len P)) with (2 + len P) by lia.
  now rewrite !Z.eqb_refl.
Qed.

(** C1, as stated, fails at the empty payload: its frame is two bytes long
    and [decodePacket] rejects every frame shorter than three. *)
Lemma encode_decode_empty_payload :
  ~ (len [] <= 253 -> decodePacket (encodePacket []) = Ok []).
Proof. intros H. specialize (H ltac:(cbv; discriminate)). discriminate H. Qed.

(** C1 (amended): for every payload [P] with [1 <= len P <= 253], decoding
    the encoded frame succeeds and returns exactly [P]. *)
Theorem decode_encode_roundtrip (P : list Z) :
  1 <= len P <= 253 -> decodePacket (encodePacket P) = Ok P.
Proof. intros [H _]. now apply decodePacket_encodePacket. Qed.

Lemma decode_encode_roundtrip_witness :
  decodePacket (encodePacket [0x28; 0x00; 0x00]) = Ok [0x28; 0x00; 0x00].
Proof. apply decode_encode_roundtrip. cbv. split; discriminate. Defined.

(** C2: [decodePacket] fails with [ErrBadPacket] exactly when the frame is
    shorter than 3 bytes, or its first byte is not the frame length modulo
    256, or its second byte is not the sum of the bytes from index 2 on
    modulo 256; in every other case it returns the frame without its first
    two bytes. *)
Theorem decodePacket_BadPacket_iff (frame : list Z) :
  let bad := len frame < 3
             \/ frame !! 0%nat <> Some (len frame mod 256)
             \/ frame !! 1%nat <> Some (sum_bytes (drop 2 frame) mod 256) in
  (decodePacket frame = Err ErrBadPacket <-> bad)
  /\ (~ bad -> decodePacket frame = Ok (drop 2 frame)).
Proof.
  destruct frame as [|b0 [|b1 rest]].
  - cbv zeta. split; [split|]; intros H; [left; cbv; reflexivity | reflexivity |].
    exfalso. apply H. left. cbv. reflexivity.
  - cbv zeta. split; [split|]; intros H; [left; cbv; reflexivity | reflexivity |].
    exfalso. apply H. left. cbv. reflexivity.
  - destruct (Z_lt_ge_dec (len (b0 :: b1 :: rest)) 3) as [Hlt|Hge].
    + cbv zeta. unfold decodePacket.
      destruct (len (b0 :: b1 :: rest) <? 3) eqn:E; [|lia].
      split; [split|]; auto. intros H. exfalso. apply H. now left.
    + cbv zeta. rewrite decodePacket_cons2 by lia.
      change (drop 2 (b0 :: b1 :: rest)) with rest.
      change ((b0 :: b1 :: rest) !! 0%nat) with (Some b0).
      change ((b0 :: b1 :: rest) !! 1%nat) with (Some b1).
      destruct (Z.eqb_spec (len (b0 :: b1 :: rest) mod 256) b0) as [E0|E0];
        destruct (Z.eqb_spec (sum_bytes rest mod 256) b1) as [E1|E1]; cbn [negb].
      * split; [split|]; [discriminate | | reflexivity].
        intros [H|[H|H]]; [lia | congruence | congruence].
      * split; [split|]; [| reflexivity |].
        -- intros _. right. right. congruence.
        -- intros H. exfalso. apply H. right. right. congruence.
      * split; [split|]; [| reflexivity |].
        -- intros _. right. left. congruence.
        -- intros H. exfalso. apply H. right. left. congruence.
      * split; [split|]; [| reflexivity |].
        -- intros _. right. left. congruence.
        -- intros H. exfalso. apply H. right. left. congruence.
Qed.

Lemma decodePacket_BadPacket_iff_witness :
  decodePacket [0x05; 0x28; 0x28; 0x00; 0x00] = Ok [0x28; 0x00; 0x00]
  /\ decodePacket [0x05; 0x00; 0x28; 0x00; 0x00] = Err ErrBadPacket.
Proof.
  split.
  - apply (proj2 (decodePacket_BadPacket_iff [0x05; 0x28; 0x28; 0x00; 0x00])).
    intros [H|[H|H]]; [vm_compute in H; discriminate H | |]; apply H; reflexivity.
  - apply (proj1 (decodePacket_BadPacket_iff [0x05; 0x00; 0x28; 0x00; 0x00])).
    right. right. vm_compute. discriminate.
Defined.

(* ------------------------------------------------------------------ *)
(** ** Byte-level receive *)

Section ByteLevel.

Variable d : Port.

Lemma recvNonZero_loop_output (fuel : nat) :
  forall attempts st, same_output st (snd (recvNonZero_loop d fuel attempts st)).
Proof.
  induction fuel as [|fuel IH]; intros attempts st; cbn [recvNonZero_loop].
  - split; reflexivity.
  - destruct (attempts >? numAttempts); [split; reflexivity|].
    unfold bindM, port_Read.
    destruct (Read d (nread st)) as [c|n b]; [split; reflexivity|].
    destruct (n =? 0); [apply (IH _ (mkState _ _ _))|].
    destruct (n =? 1); [|split; reflexivity].
    destruct (b =? 0); [apply (IH _ (mkState _ _ _))|split; reflexivity].
Qed.

(** [recvNonZero] returns a nonzero byte, or one of three errors; it never
    panics. *)
Lemma recvNonZero_loop_result (fuel : nat) :
  forall attempts st,
    match fst (recvNonZero_loop d fuel attempts st) with
    | Ok b => b <> 0
    | Err e => e = ErrDeviceTimeout \/ e = ErrSerial \/ exists c, e = ErrIO c
    | Panic => False
    | OutOfFuel => True
    end.
Proof.
  induction fuel as [|fuel IH]; intros attempts st; cbn [recvNonZero_loop].
  - exact I.
  - destruct (attempts >? numAttempts); [now left|].
    unfold bindM, port_Read.
    destruct (Read d (nread st)) as [c|n b]; [right; right; now exists c|].
    destruct (n =? 0); [apply IH|].
    destruct (n =? 1); [|right; now left].
    destruct (Z.eqb_spec b 0); [apply IH|exact n0].
Qed.

Lemma recvAck_wlog (fuel : nat) (st : State) (r : result Z) (st' : State) :
  recvAck d fuel st = (r, st') -> wlog st' = wlog st.
Proof.
  intros H. pose proof (recvNonZero_loop_output fuel 0 st) as [Hw _].
  unfold recvAck, recvNonZero in H. now rewrite H in Hw.
Qed.

Lemma recvAck_not_ErrDevice (fuel : nat) (st st' : State) :
  recvAck d fuel st <> (Err ErrDevice, st').
Proof.
  intros H. pose proof (recvNonZero_loop_result fuel 0 st) as Hr.
  unfold recvAck, recvNonZero in H. rewrite H in Hr. cbn in Hr.
  destruct Hr as [Hr|[Hr|[c Hr]]]; discriminate Hr.
Qed.

End ByteLevel.

(* ------------------------------------------------------------------ *)
(** ** SendPacket *)

Section Send.

Variable d : Port.
Variable fuel : nat.
Variable pkt : list Z.

(** One turn of the loop of [SendPacket]. *)
Lemma SendPacket_loop_S (left : nat) (st : State) :
  SendPacket_loop d fuel pkt (S left) st =
    match Write d (length (wlog st)) pkt with
    | WriteErr c => (Err (ErrIO c), after_write st pkt)
    | WriteLen n =>
      if negb (n =? len pkt) then (Err ErrSerial, after_write st pkt)
      else
        match recvAck d fuel (after_write st pkt) with
        | (Err ErrDeviceTimeout, st') => SendPacket_loop d fuel pkt left st'
        | (Err e, st') => (Err e, st')
        | (Ok ack, st') =>
          if ack =? CC_ACK then (Ok tt, st')
          else SendPacket_loop d fuel pkt left st'
        | (Panic, st') => (Panic, st')
        | (OutOfFuel, st') => (OutOfFuel, st')
        end
    end.
Proof.
  cbn [SendPacket_loop]. unfold bindM, port_Write, after_write, failM.
  destruct (Write d (length (wlog st)) pkt) as [c|n]; [reflexivity|].
  destruct (negb (n =? len pkt)); reflexivity.
Qed.

Lemma replicate_snoc (k : nat) (l : list (list Z)) :
  (l ++ [pkt]) ++ replicate k pkt = l ++ replicate (S k) pkt.
Proof. now rewrite <- app_assoc. Qed.

(** Whatever happens, the log grows by copies of the frame only, one per
    attempt made. *)
Lemma SendPacket_loop_wlog (left : nat) :
  forall st, exists k, (k <= left)%nat /\ (0 < left -> 1 <= k)%nat
    /\ wlog (snd (SendPacket_loop d fuel pkt left st)) = wlog st ++ replicate k pkt.
Proof.
  induction left as [|left IH]; intros st.
  - exists 0%nat. cbn. rewrite app_nil_r. repeat split; lia.
  - rewrite SendPacket_loop_S.
    assert (Hone : exists k, (k <= S left)%nat /\ (0 < S left -> 1 <= k)%nat
              /\ wlog (after_write st pkt) = wlog st ++ replicate k pkt).
    { exists 1%nat. repeat split; lia. }
    assert (Hmore : forall st', wlog st' = wlog (after_write st pkt) ->
              exists k, (k <= S left)%nat /\ (0 < S left -> 1 <= k)%nat
              /\ wlog (snd (SendPacket_loop d fuel pkt left st')) = wlog st ++ replicate k pkt).
    { intros st' Hst'. destruct (IH st') as (k & Hk & _ & Hw).
      exists (S k). rewrite Hw, Hst'. cbn [after_write wlog].
      rewrite replicate_snoc. repeat split; lia. }
    destruct (Write d (length (wlog st)) pkt) as [c|n]; [exact Hone|].
    destruct (negb (n =? len pkt)); [exact Hone|].
    destruct (recvAck d fuel (after_write st pkt)) as [r st'] eqn:Hack.
    apply recvAck_wlog in Hack.
    assert (Hstop : exists k, (k <= S left)%nat /\ (0 < S left -> 1 <= k)%nat
              /\ wlog st' = wlog st ++ replicate k pkt).
    { rewrite Hack. exact Hone. }
    destruct r as [ack|e| |]; try exact Hstop.
    + destruct (ack =? CC_ACK); [exact Hstop | now apply Hmore].
    + destruct e; try exact Hstop. now apply Hmore.
Qed.

Lemma send_retries_wlog (k : nat) (st st' : State) :
  send_retries d fuel pkt k st st' -> wlog st' = wlog st ++ replicate k pkt.
Proof.
  induction 1 as [st|k st st1 st' [_ Hu] _ IH].
  - cbn. now rewrite app_nil_r.
  - rewrite IH. rewrite <- replicate_snoc. f_equal.
    destruct Hu as [Hu|(b & _ & Hu)]; now apply recvAck_wlog in Hu.
Qed.

Lemma acked_wlog (st st' : State) :
  acked d fuel pkt st st' -> wlog st' = wlog st ++ [pkt].
Proof. intros [_ H]. now apply recvAck_wlog in H. Qed.

Lemma SendPacket_loop_Ok (left : nat) :
  forall st st',
    SendPacket_loop d fuel pkt left st = (Ok tt, st') <->
    exists k st1, (k < left)%nat /\ send_retries d fuel pkt k st st1
                  /\ acked d fuel pkt st1 st'.
Proof.
  induction left as [|left IH]; intros st st'.
  - split; [discriminate | intros (k & _ & Hk & _); lia].
  - rewrite SendPacket_loop_S. split.
    + intros H.
      destruct (Write d (length (wlog st)) pkt) as [c|n] eqn:Hw; [discriminate|].
      destruct (Z.eqb_spec n (len pkt)) as [->|]; [cbn [negb] in H|discriminate].
      destruct (recvAck d fuel (after_write st pkt)) as [r st1] eqn:Hack.
      assert (Hrec : SendPacket_loop d fuel pkt left st1 = (Ok tt, st') ->
                     unanswered d fuel pkt st st1 ->
                     exists k st2, (k < S left)%nat /\ send_retries d fuel pkt k st st2
                                   /\ acked d fuel pkt st2 st').
      { intros Hl Hu. apply IH in Hl as (k & st2 & Hk & Hr & Ha).
        exists (S k), st2. split; [lia|]. split; [|exact Ha].
        now apply send_retries_S with st1. }
      destruct r as [ack|e| |]; try discriminate.
      * destruct (Z.eqb_spec ack CC_ACK) as [->|Hne].
        -- injection H as <-. exists 0%nat, st. split; [lia|].
           split; [constructor | now split].
        -- apply Hrec; [exact H|]. split; [exact Hw|]. right. now exists ack.
      * destruct e; try discriminate. apply Hrec; [exact H|].
        split; [exact Hw|]. now left.
    + intros (k & st1 & Hk & Hr & Ha).
      destruct Hr as [st|k st st2 st1 [Hw Hu] Hr].
      * destruct Ha as [Hw Ha]. rewrite Hw, Z.eqb_refl. cbn [negb].
        now rewrite Ha.
      * rewrite Hw, Z.eqb_refl. cbn [negb].
        assert (Hl : SendPacket_loop d fuel pkt left st2 = (Ok tt, st')).
        { apply IH. exists k, st1. split; [lia|]. now split. }
        destruct Hu as [Hu|(b & Hb & Hu)]; rewrite Hu; [exact Hl|].
        destruct (Z.eqb_spec b CC_ACK); [contradiction|exact Hl].
Qed.

Lemma SendPacket_loop_ErrDevice (left : nat) :
  forall st st',
    SendPacket_loop d fuel pkt left st = (Err ErrDevice, st') <->
    send_retries d fuel pkt left st st'.
Proof.
  induction left as [|left IH]; intros st st'.
  - split.
    + intros H. injection H as <-. constructor.
    + intros H. inversion H. reflexivity.
  - rewrite SendPacket_loop_S. split.
    + intros H.
      destruct (Write d (length (wlog st)) pkt) as [c|n] eqn:Hw; [discriminate|].
      destruct (Z.eqb_spec n (len pkt)) as [->|]; [cbn [negb] in H|discriminate].
      destruct (recvAck d fuel (after_write st pkt)) as [r st1] eqn:Hack.
      destruct r as [ack|e| |]; try discriminate.
      * destruct (Z.eqb_spec ack CC_ACK) as [->|Hne]; [discriminate|].
        apply send_retries_S with st1; [|now apply IH].
        split; [exact Hw|]. right. now exists ack.
      * destruct e; try discriminate.
        -- injection H as <-. now apply recvAck_not_ErrDevice in Hack.
        -- apply send_retries_S with st1; [|now apply IH].
           split; [exact Hw|]. now left.
    + intros H. inversion H as [|k st0 st1 st2 [Hw Hu] Hr]; subst.
      rewrite Hw, Z.eqb_refl. cbn [negb]. apply IH in Hr.
      destruct Hu as [Hu|(b & Hb & Hu)]; rewrite Hu; [exact Hr|].
      destruct (Z.eqb_spec b CC_ACK); [contradiction|exact Hr].
Qed.

End Send.

Lemma SendPacket_nack_nack_ack (fuel : nat) (pkt : list Z) :
  (1 <= fuel)%nat ->
  SendPacket (bytes_port [CC_NACK; CC_NACK; CC_ACK]) fuel pkt init
  = (Ok tt, mkState 3 [pkt; pkt; pkt] 0).
Proof.
  intros Hf. destruct fuel as [|fuel]; [lia|].
  unfold SendPacket. change (Z.to_nat numAttempts) with 3%nat.
  cbn. rewrite !Z.eqb_refl. reflexivity.
Qed.

(** C3: [SendPacket] hands the same full frame to the transport once per
    attempt and makes between one and three attempts. It returns success
    exactly when, after fewer than three unanswered attempts (the
    acknowledgment read timed out or yielded a byte other than [0xCC]), an
    attempt is answered by [0xCC]; the log then holds one copy of the frame
    per attempt. It fails with [ErrDevice] exactly when three attempts in a
    row went unanswered. A transport answering [0x33], [0x33], [0xCC] gives
    success after three writes of the frame. *)
Theorem SendPacket_retry_protocol (d : Port) (fuel : nat) (pkt : list Z) (st : State) :
  (exists k, (1 <= k <= 3)%nat
     /\ wlog (snd (SendPacket d fuel pkt st)) = wlog st ++ replicate k pkt)
  /\ (forall st', SendPacket d fuel pkt st = (Ok tt, st') <->
        exists k st1, (k < 3)%nat /\ send_retries d fuel pkt k st st1
                      /\ acked d fuel pkt st1 st')
  /\ (forall k st1 st', send_retries d fuel pkt k st st1 -> acked d fuel pkt st1 st' ->
        wlog st' = wlog st ++ replicate (S k) pkt)
  /\ (forall st', SendPacket d fuel pkt st = (Err ErrDevice, st') <->
        send_retries d fuel pkt 3 st st')
  /\ (forall st', send_retries d fuel pkt 3 st st' ->
        wlog st' = wlog st ++ replicate 3 pkt)
  /\ ((1 <= fuel)%nat ->
        SendPacket (bytes_port [0x33; 0x33; 0xCC]) fuel pkt init
        = (Ok tt, mkState 3 [pkt; pkt; pkt] 0)).
Proof.
  repeat split.
  - destruct (SendPacket_loop_wlog d fuel pkt 3 st) as (k & Hk & Hpos & Hw).
    exists k. split; [lia | exact Hw].
  - apply (SendPacket_loop_Ok d fuel pkt 3).
  - apply (SendPacket_loop_Ok d fuel pkt 3).
  - intros k st1 st' Hr Ha.
    rewrite (acked_wlog _ _ _ _ _ Ha), (send_retries_wlog _ _ _ _ _ _ Hr).
    rewrite <- app_assoc. f_equal.
    change (replicate (S k) pkt) with ([pkt] ++ replicate k pkt).
    clear. induction k as [|k IH]; [reflexivity|].
    cbn [replicate app]. now rewrite IH.
  - apply (SendPacket_loop_ErrDevice d fuel pkt 3).
  - apply (SendPacket_loop_ErrDevice d fuel pkt 3).
  - apply send_retries_wlog.
  - apply SendPacket_nack_nack_ack.
Qed.

Lemma SendPacket_retry_protocol_witness :
  let d := bytes_port [0x33; 0x33; 0xCC] in
  let frame := encodeCmdPacket COMMAND_PING [] in
  send_retries d 1 frame 2 init (mkState 2 [frame; frame] 0)
  /\ acked d 1 frame (mkState 2 [frame; frame] 0) (mkState 3 [frame; frame; frame] 0)
  /\ SendPacket d 1 frame init = (Ok tt, mkState 3 [frame; frame; frame] 0).
Proof.
  intros d frame.
  assert (Hr : send_retries d 1 frame 2 init (mkState 2 [frame; frame] 0)).
  { apply send_retries_S with (mkState 1 [frame] 0).
    - split; [reflexivity|]. right. exists 0x33. split; [discriminate | reflexivity].
    - apply send_retries_S with (mkState 2 [frame; frame] 0).
      + split; [reflexivity|]. right. exists 0x33. split; [discriminate | reflexivity].
      + constructor. }
  assert (Ha : acked d 1 frame (mkState 2 [frame; frame] 0)
                 (mkState 3 [frame; frame; frame] 0)).
  { split; reflexivity. }
  split; [exact Hr|]. split; [exact Ha|].
  apply (proj1 (proj2 (SendPacket_retry_protocol d 1 frame init))).
  exists 2%nat, (mkState 2 [frame; frame] 0).
  split; [lia|]. split; [exact Hr | exact Ha].
Defined.

(* ------------------------------------------------------------------ *)
(** ** recvNonZero and its timeout budget *)

Section NonZero.

Variable d : Port.

(** A padding byte is thrown away and the counter is left alone. *)
Lemma recvNonZero_loop_padding (fuel : nat) (attempts : Z) (st : State) :
  attempts <= numAttempts ->
  is_padding (Read d (nread st)) = true ->
  recvNonZero_loop d (S fuel) attempts st
  = recvNonZero_loop d fuel attempts (read_done st).
Proof.
  intros Ha Hp. cbn [recvNonZero_loop].
  destruct (Z.gtb_spec attempts numAttempts); [lia|].
  unfold bindM, port_Read, read_done.
  destruct (Read d (nread st)) as [c|n b]; [discriminate|].
  cbn [is_padding] in Hp. apply andb_true_iff in Hp as [Hn Hb].
  apply Z.eqb_eq in Hn. subst n. cbn [Z.eqb]. now rewrite Hb.
Qed.

(** An empty read is counted. *)
Lemma recvNonZero_loop_empty (fuel : nat) (attempts : Z) (st : State) :
  attempts <= numAttempts ->
  is_empty (Read d (nread st)) = true ->
  recvNonZero_loop d (S fuel) attempts st
  = recvNonZero_loop d fuel (attempts + 1) (read_done st).
Proof.
  intros Ha He. cbn [recvNonZero_loop].
  destruct (Z.gtb_spec attempts numAttempts); [lia|].
  unfold bindM, port_Read, read_done.
  destruct (Read d (nread st)) as [c|n b]; [discriminate|].
  cbn [is_empty] in He. now rewrite He.
Qed.

(** If the loop returns at all, then after [m] reads, and either the last
    of them ended the wait, or the budget was exhausted by empty reads. *)
Lemma recvNonZero_loop_returns (fuel : nat) :
  forall attempts st r st',
    recvNonZero_loop d fuel attempts st = (r, st') ->
    r <> OutOfFuel ->
    exists m, nread st' = (nread st + m)%nat
      /\ ((r = Err ErrDeviceTimeout
           /\ attempts + Z.of_nat (count_empty d (nread st) m) > numAttempts)
          \/ (exists i, m = S i /\ ends_wait (Read d (nread st + i)) = true)).
Proof.
  induction fuel as [|fuel IH]; intros attempts st r st' H Hr.
  - cbn in H. injection H as <- <-. contradiction.
  - destruct (Z.gtb_spec attempts numAttempts) as [Hgt|Hle].
    + cbn [recvNonZero_loop] in H.
      destruct (Z.gtb_spec attempts numAttempts); [|lia].
      injection H as <- <-. exists 0%nat. split; [lia|]. left.
      split; [reflexivity|]. cbn. lia.
    + destruct (is_empty (Read d (nread st))) eqn:He;
        [|destruct (is_padding (Read d (nread st))) eqn:Hp].
      * rewrite recvNonZero_loop_empty in H by assumption.
        apply IH in H as (m & Hm & Hcase); [|exact Hr].
        exists (S m). cbn [read_done nread] in Hm, Hcase.
        split; [lia|]. destruct Hcase as [[-> Hc]|(i & -> & Hi)].
        -- left. split; [reflexivity|]. cbn [count_empty]. rewrite He. lia.
        -- right. exists (S i). split; [reflexivity|].
           now replace (nread st + S i)%nat with (S (nread st) + i)%nat by lia.
      * rewrite recvNonZero_loop_padding in H by assumption.
        apply IH in H as (m & Hm & Hcase); [|exact Hr].
        exists (S m). cbn [read_done nread] in Hm, Hcase.
        split; [lia|]. destruct Hcase as [[-> Hc]|(i & -> & Hi)].
        -- left. split; [reflexivity|]. cbn [count_empty]. rewrite He. lia.
        -- right. exists (S i). split; [reflexivity|].
           now replace (nread st + S i)%nat with (S (nread st) + i)%nat by lia.
      * cbn [recvNonZero_loop] in H.
        destruct (Z.gtb_spec attempts numAttempts); [lia|].
        unfold bindM, port_Read in H.
        assert (Hend : ends_wait (Read d (nread st + 0)) = true).
        { unfold ends_wait. rewrite Nat.add_0_r, He, Hp. reflexivity. }
        assert (Hone : nread st' = S (nread st) ->
                  exists m, nread st' = (nread st + m)%nat
                    /\ ((r = Err ErrDeviceTimeout
                         /\ attempts + Z.of_nat (count_empty d (nread st) m) > numAttempts)
                        \/ (exists i, m = S i /\ ends_wait (Read d (nread st + i)) = true))).
        { intros Hn. exists 1%nat. split; [lia|]. right. now exists 0%nat. }
        destruct (Read d (nread st)) as [c|n b].
        -- injection H as <- <-. now apply Hone.
        -- cbn [is_empty is_padding] in He, Hp. rewrite He in H.
           destruct (n =? 1); [|injection H as <- <-; now apply Hone].
           cbn [andb] in Hp. rewrite Hp in H.
           injection H as <- <-. now apply Hone.
Qed.

(** While the transport only pads, the loop only reads. *)
Lemma recvNonZero_loop_padding_only (fuel : nat) :
  forall attempts st,
    attempts <= numAttempts ->
    (forall i, is_padding (Read d (nread st + i)) = true) ->
    recvNonZero_loop d fuel attempts st
    = (OutOfFuel, mkState (nread st + fuel) (wlog st) (nlog st)).
Proof.
  induction fuel as [|fuel IH]; intros attempts st Ha Hpad.
  - cbn. rewrite Nat.add_0_r. now destruct st.
  - rewrite recvNonZero_loop_padding; [|exact Ha|].
    + rewrite IH; [|exact Ha|].
      * cbn [read_done nread wlog nlog]. do 2 f_equal. lia.
      * intros i. cbn [read_done nread].
        replace (S (nread st) + i)%nat with (nread st + S i)%nat by lia. apply Hpad.
    + specialize (Hpad 0%nat). now rewrite Nat.add_0_r in Hpad.
Qed.

End NonZero.

Lemma recvNonZero_loop_zeros_then (n : nat) (b : Z) (fuel : nat) :
  b <> 0 ->
  forall attempts k w l,
    attempts <= numAttempts -> (k <= n)%nat -> (n - k < fuel)%nat ->
    recvNonZero_loop (zeros_then_port n b) fuel attempts (mkState k w l)
    = (Ok b, mkState (S n) w l).
Proof.
  intros Hb. induction fuel as [|fuel IH]; intros attempts k w l Ha Hk Hf; [lia|].
  destruct (Nat.ltb_spec k n) as [Hlt|Hge].
  - rewrite recvNonZero_loop_padding; [|exact Ha|].
    + unfold read_done. cbn [nread wlog nlog]. apply IH; [exact Ha|lia|lia].
    + cbn [nread zeros_then_port Read].
      destruct (Nat.ltb_spec k n); [reflexivity|lia].
  - assert (k = n) by lia. subst k.
    cbn [recvNonZero_loop].
    destruct (Z.gtb_spec attempts numAttempts); [lia|].
    unfold bindM, port_Read. cbn [nread zeros_then_port Read wlog nlog].
    destruct (Nat.ltb_spec n n); [lia|]. cbn [Z.eqb Pos.eqb].
    destruct (Z.eqb_spec b 0); [contradiction|reflexivity].
Qed.

(** C10: in [recvNonZero] only empty reads are counted against the budget.
    After [n] padding bytes and a nonzero byte [b] it returns [b], having
    made [n + 1] reads, for every [n]; on a silent transport it gives up
    with [ErrDeviceTimeout] after [numAttempts + 1] reads. Whenever it
    returns, either its last read delivered a nonzero byte or a transport
    failure, or it returns [ErrDeviceTimeout] and more than [numAttempts] of
    its reads were empty. On a transport that pads for ever it is still
    reading whatever the fuel: it never returns, and never times out. *)
Theorem recvNonZero_padding_not_budgeted :
  (forall (n : nat) (b : Z) (fuel : nat),
      b <> 0 -> (n < fuel)%nat ->
      recvNonZero (zeros_then_port n b) fuel init = (Ok b, mkState (S n) [] 0))
  /\ (forall fuel : nat,
      (5 <= fuel)%nat ->
      recvNonZero (script_port []) fuel init = (Err ErrDeviceTimeout, mkState 4 [] 0))
  /\ (forall (d : Port) (fuel : nat) (st : State) (r : result Z) (st' : State),
      recvNonZero d fuel st = (r, st') ->
      r <> OutOfFuel ->
      exists m, nread st' = (nread st + m)%nat
        /\ ((r = Err ErrDeviceTimeout
             /\ Z.of_nat (count_empty d (nread st) m) > numAttempts)
            \/ (exists i, m = S i /\ ends_wait (Read d (nread st + i)) = true)))
  /\ (forall (d : Port) (fuel : nat) (st : State),
      (forall i, is_padding (Read d (nread st + i)) = true) ->
      recvNonZero d fuel st = (OutOfFuel, mkState (nread st + fuel) (wlog st) (nlog st)))
  /\ (forall fuel : nat,
      recvNonZero all_zero_port fuel init = (OutOfFuel, mkState fuel [] 0)).
Proof.
  split; [|split; [|split; [|split]]].
  - intros n b fuel Hb Hf. unfold recvNonZero, init.
    apply recvNonZero_loop_zeros_then; [exact Hb | cbv; discriminate | lia | lia].
  - intros fuel Hf. do 5 (destruct fuel as [|fuel]; [lia|]). reflexivity.
  - intros d fuel st r st' H Hr. unfold recvNonZero in H.
    destruct (recvNonZero_loop_returns d fuel 0 st r st' H Hr) as (m & Hm & Hc).
    exists m. split; [exact Hm|]. destruct Hc as [[-> Hc]|Hc]; [left|right; exact Hc].
    split; [reflexivity | lia].
  - intros d fuel st Hpad. unfold recvNonZero.
    apply recvNonZero_loop_padding_only; [cbv; discriminate | exact Hpad].
  - intros fuel. unfold recvNonZero.
    rewrite recvNonZero_loop_padding_only; [reflexivity | cbv; discriminate | reflexivity].
Qed.

Lemma recvNonZero_padding_not_budgeted_witness :
  recvNonZero (zeros_then_port 5 0xCC) 6 init = (Ok 0xCC, mkState 6 [] 0)
  /\ recvNonZero (script_port []) 5 init = (Err ErrDeviceTimeout, mkState 4 [] 0).
Proof.
  split.
  - apply (proj1 recvNonZero_padding_not_budgeted); [discriminate | lia].
  - apply (proj1 (proj2 recvNonZero_padding_not_budgeted)). lia.
Defined.

(* ------------------------------------------------------------------ *)
(** ** RecvPacket *)

Lemma same_output_refl (st : State) : same_output st st.
Proof. split; reflexivity. Qed.

Lemma same_output_trans (st1 st2 st3 : State) :
  same_output st1 st2 -> same_output st2 st3 -> same_output st1 st3.
Proof. intros [H1 H2] [H3 H4]. split; congruence. Qed.

Lemma reads_only_bind {A B : Type} (m : M A) (k : A -> M B) :
  reads_only m -> (forall a, reads_only (k a)) -> reads_only (bindM m k).
Proof.
  intros Hm Hk st. unfold bindM. specialize (Hm st).
  destruct (m st) as [[a|e| |] st1]; cbn [snd] in *; try exact Hm.
  eapply same_output_trans; [exact Hm | apply Hk].
Qed.

Lemma reads_only_liftR {A : Type} (r : result A) : reads_only (liftR r).
Proof. intros st. apply same_output_refl. Qed.

Lemma reads_only_retM {A : Type} (a : A) : reads_only (retM a).
Proof. intros st. apply same_output_refl. Qed.

Lemma reads_only_failM {A : Type} (e : error) : reads_only (@failM A e).
Proof. intros st. apply same_output_refl. Qed.

Lemma fails_link_bind {A B : Type} (m : M A) (k : A -> M B) :
  fails_link m -> (forall a, fails_link (k a)) -> fails_link (bindM m k).
Proof.
  intros Hm Hk st e. unfold bindM. specialize (Hm st).
  destruct (m st) as [[a|e'| |] st1]; cbn [fst] in *; try discriminate.
  - apply Hk.
  - intros H. injection H as <-. now apply Hm.
Qed.

Lemma fails_link_liftR_store (l : list Z) (i : nat) (b : Z) :
  fails_link (liftR (store l i b)).
Proof.
  intros st e. unfold liftR, store. cbn [fst].
  destruct (i <? length l)%nat; intros H; discriminate H.
Qed.

Lemma fails_link_retM {A : Type} (a : A) : fails_link (retM a).
Proof. intros st e. discriminate. Qed.

Create HintDb link discriminated.
#[local] Hint Resolve reads_only_liftR reads_only_retM reads_only_failM
  fails_link_liftR_store fails_link_retM : link.

Section Recv.

Variable d : Port.
Variable fuel : nat.

Lemma recvNonZero_reads_only : reads_only (recvNonZero d fuel).
Proof. intros st. apply recvNonZero_loop_output. Qed.

Lemma recvNonZero_fails_link : fails_link (recvNonZero d fuel).
Proof.
  intros st e H. pose proof (recvNonZero_loop_result d fuel 0 st) as Hr.
  unfold recvNonZero in H. now rewrite H in Hr.
Qed.

Lemma recvByte_loop_reads_only (f : nat) :
  forall attempts, reads_only (recvByte_loop d f attempts).
Proof.
  induction f as [|f IH]; intros attempts st; cbn [recvByte_loop].
  - apply same_output_refl.
  - destruct (attempts >? numAttempts); [apply same_output_refl|].
    unfold bindM, port_Read.
    destruct (Read d (nread st)) as [c|n b]; [split; reflexivity|].
    destruct (n =? 0); [apply (IH _ (mkState _ _ _))|].
    destruct (n =? 1); split; reflexivity.
Qed.

Lemma recvByte_loop_fails_link (f : nat) :
  forall attempts, fails_link (recvByte_loop d f attempts).
Proof.
  induction f as [|f IH]; intros attempts st e; cbn [recvByte_loop].
  - discriminate.
  - destruct (attempts >? numAttempts).
    + intros H. injection H as <-. now left.
    + unfold bindM, port_Read.
      destruct (Read d (nread st)) as [c|n b].
      * intros H. injection H as <-. right. right. now exists c.
      * destruct (n =? 0); [apply IH|].
        destruct (n =? 1); [discriminate|].
        intros H. injection H as <-. right. now left.
Qed.

Lemma recvRest_reads_only (todo : nat) :
  forall count pkt, reads_only (recvRest d fuel todo count pkt).
Proof.
  induction todo as [|todo IH]; intros count pkt; cbn [recvRest]; auto with link.
  apply reads_only_bind; [apply recvByte_loop_reads_only|]. intros b.
  apply reads_only_bind; auto with link.
Qed.

Lemma recvRest_fails_link (todo : nat) :
  forall count pkt, fails_link (recvRest d fuel todo count pkt).
Proof.
  induction todo as [|todo IH]; intros count pkt; cbn [recvRest]; auto with link.
  apply fails_link_bind; [apply recvByte_loop_fails_link|]. intros b.
  apply fails_link_bind; auto with link.
Qed.

Lemma recvFrame_reads_only : reads_only (recvFrame d fuel).
Proof.
  unfold recvFrame. apply reads_only_bind; [apply recvNonZero_reads_only|].
  intros size. apply reads_only_bind; auto with link.
  intros pkt. apply recvRest_reads_only.
Qed.

Lemma recvFrame_fails_link : fails_link (recvFrame d fuel).
Proof.
  unfold recvFrame. apply fails_link_bind; [apply recvNonZero_fails_link|].
  intros size. apply fails_link_bind; auto with link.
  intros pkt. apply recvRest_fails_link.
Qed.

Lemma recvFrame_wlog (st : State) (r : result (list Z)) (st' : State) :
  recvFrame d fuel st = (r, st') -> wlog st' = wlog st.
Proof. intros H. pose proof (recvFrame_reads_only st) as [Hw _]. now rewrite H in Hw. Qed.

Lemma sendAck_eq (ack : Z) (st : State) :
  sendAck d ack st =
    match Write d (length (wlog st)) [ack] with
    | WriteErr c => (Err (ErrIO c), after_write st [ack])
    | WriteLen n =>
      if negb (n =? 1) then (Err ErrSerial, after_write st [ack])
      else (Ok tt, after_write st [ack])
    end.
Proof.
  unfold sendAck, bindM, liftR, port_Write, after_write.
  change (store (make 1) 0 ack) with (@Ok (list Z) [ack]). cbv iota beta.
  destruct (Write d (length (wlog st)) [ack]) as [c|n]; [reflexivity|].
  destruct (negb (n =? 1)); reflexivity.
Qed.

(** [decodePacket] returns the payload or [ErrBadPacket], nothing else. *)
Lemma decodePacket_total (pkt : list Z) :
  decodePacket pkt = Err ErrBadPacket \/ decodePacket pkt = Ok (drop 2 pkt).
Proof.
  destruct (Z_lt_ge_dec (len pkt) 3) as [Hlt|Hge].
  - left. unfold decodePacket. destruct (Z.ltb_spec (len pkt) 3); [reflexivity|lia].
  - destruct pkt as [|b0 [|b1 rest]]; try (cbv in Hge; congruence).
    rewrite decodePacket_cons2 by lia.
    destruct (negb _); [now left|]. destruct (negb _); [now left|now right].
Qed.

Lemma nacks_snoc (k : nat) (l tl : list (list Z)) :
  (l ++ [[CC_NACK]]) ++ replicate k [CC_NACK] ++ tl = l ++ replicate (S k) [CC_NACK] ++ tl.
Proof. now rewrite <- app_assoc. Qed.

(** Whatever happens, [RecvPacket] writes single bytes only: one [NACK] per
    rejected frame, then at most one [ACK]. *)
Lemma RecvPacket_loop_wlog (left : nat) :
  forall st, exists k tl,
    (k <= left)%nat /\ (tl = [] \/ tl = [[CC_ACK]])
    /\ wlog (snd (RecvPacket_loop d fuel left st))
       = wlog st ++ replicate k [CC_NACK] ++ tl.
Proof.
  induction left as [|left IH]; intros st.
  - exists 0%nat, []. cbn. rewrite app_nil_r. split; [lia|]. split; [now left|reflexivity].
  - cbn [RecvPacket_loop]. unfold bindM at 1.
    destruct (recvFrame d fuel st) as [r st1] eqn:Hf. apply recvFrame_wlog in Hf.
    assert (Hnone : exists k tl, (k <= S left)%nat /\ (tl = [] \/ tl = [[CC_ACK]])
              /\ wlog st1 = wlog st ++ replicate k [CC_NACK] ++ tl).
    { exists 0%nat, []. cbn. rewrite app_nil_r. split; [lia|]. split; [now left|exact Hf]. }
    destruct r as [pkt|e| |]; cbn [snd]; try exact Hnone.
    destruct (decodePacket_total pkt) as [E|E]; rewrite E; unfold bindM; rewrite sendAck_eq.
    + assert (Hone : exists k tl, (k <= S left)%nat /\ (tl = [] \/ tl = [[CC_ACK]])
                /\ wlog (after_write st1 [CC_NACK]) = wlog st ++ replicate k [CC_NACK] ++ tl).
      { exists 1%nat, []. cbn. rewrite Hf. split; [lia|]. split; [now left|reflexivity]. }
      destruct (Write d (length (wlog st1)) [CC_NACK]) as [c|n]; [exact Hone|].
      destruct (negb (n =? 1)); [exact Hone|].
      destruct (IH (after_write st1 [CC_NACK])) as (k & tl & Hk & Htl & Hw).
      exists (S k), tl. split; [lia|]. split; [exact Htl|].
      rewrite Hw. cbn [after_write wlog]. rewrite Hf. apply nacks_snoc.
    + assert (Hone : exists k tl, (k <= S left)%nat /\ (tl = [] \/ tl = [[CC_ACK]])
                /\ wlog (after_write st1 [CC_ACK]) = wlog st ++ replicate k [CC_NACK] ++ tl).
      { exists 0%nat, [[CC_ACK]]. cbn. rewrite Hf. split; [lia|]. split; [now right|reflexivity]. }
      destruct (Write d (length (wlog st1)) [CC_ACK]) as [c|n]; [exact Hone|].
      destruct (negb (n =? 1)); exact Hone.
Qed.

Lemma recv_retries_wlog (k : nat) (st st' : State) :
  recv_retries d fuel k st st' -> wlog st' = wlog st ++ replicate k [CC_NACK].
Proof.
  induction 1 as [st|k st st1 st' (pkt & st0 & Hf & _ & _ & ->) _ IH].
  - cbn. now rewrite app_nil_r.
  - rewrite IH. cbn [after_write wlog]. apply recvFrame_wlog in Hf. rewrite Hf.
    now rewrite <- app_assoc.
Qed.

Lemma good_frame_wlog (st : State) (data : list Z) (st' : State) :
  good_frame d fuel st data st' -> wlog st' = wlog st ++ [[CC_ACK]].
Proof.
  intros (pkt & st1 & Hf & _ & _ & ->). cbn [after_write wlog].
  apply recvFrame_wlog in Hf. now rewrite Hf.
Qed.

Lemma RecvPacket_loop_Ok (left : nat) :
  forall st data st',
    RecvPacket_loop d fuel left st = (Ok data, st') <->
    exists k st1, (k < left)%nat /\ recv_retries d fuel k st st1
                  /\ good_frame d fuel st1 data st'.
Proof.
  induction left as [|left IH]; intros st data st'.
  - split; [discriminate | intros (k & _ & Hk & _); lia].
  - cbn [RecvPacket_loop]. unfold bindM at 1. split.
    + intros H.
      destruct (recvFrame d fuel st) as [[pkt|e| |] st1] eqn:Hf; try discriminate.
      destruct (decodePacket_total pkt) as [E|E]; rewrite E in H;
        unfold bindM in H; rewrite sendAck_eq in H.
      * destruct (Write d (length (wlog st1)) [CC_NACK]) as [c|n] eqn:Hw; [discriminate|].
        destruct (Z.eqb_spec n 1) as [->|]; [cbn [negb] in H|discriminate].
        apply IH in H as (k & st2 & Hk & Hr & Hg).
        exists (S k), st2. split; [lia|]. split; [|exact Hg].
        apply recv_retries_S with (after_write st1 [CC_NACK]); [|exact Hr].
        exists pkt, st1. repeat split; assumption.
      * destruct (Write d (length (wlog st1)) [CC_ACK]) as [c|n] eqn:Hw; [discriminate|].
        destruct (Z.eqb_spec n 1) as [->|]; [cbn [negb] in H|discriminate].
        injection H as <- <-. exists 0%nat, st. split; [lia|]. split; [constructor|].
        exists pkt, st1. repeat split; assumption.
    + intros (k & st1 & Hk & Hr & Hg).
      destruct Hr as [st|k st st2 st1 (pkt & st0 & Hf & E & Hw & ->) Hr].
      * destruct Hg as (pkt & st0 & Hf & E & Hw & ->).
        rewrite Hf, E. unfold bindM. rewrite sendAck_eq, Hw. reflexivity.
      * rewrite Hf, E. unfold bindM. rewrite sendAck_eq, Hw. cbn [Z.eqb Pos.eqb negb].
        apply IH. exists k, st1. split; [lia|]. now split.
Qed.

Lemma RecvPacket_loop_ErrDevice (left : nat) :
  forall st st',
    RecvPacket_loop d fuel left st = (Err ErrDevice, st') <->
    recv_retries d fuel left st st'.
Proof.
  induction left as [|left IH]; intros st st'.
  - split.
    + intros H. injection H as <-. constructor.
    + intros H. inversion H. reflexivity.
  - cbn [RecvPacket_loop]. unfold bindM at 1. split.
    + intros H.
      destruct (recvFrame d fuel st) as [[pkt|e| |] st1] eqn:Hf; try discriminate.
      * destruct (decodePacket_total pkt) as [E|E]; rewrite E in H;
          unfold bindM in H; rewrite sendAck_eq in H.
        -- destruct (Write d (length (wlog st1)) [CC_NACK]) as [c|n] eqn:Hw; [discriminate|].
           destruct (Z.eqb_spec n 1) as [->|]; [cbn [negb] in H|discriminate].
           apply IH in H.
           apply recv_retries_S with (after_write st1 [CC_NACK]); [|exact H].
           exists pkt, st1. repeat split; assumption.
        -- destruct (Write d (length (wlog st1)) [CC_ACK]) as [c|n] eqn:Hw; [discriminate|].
           destruct (negb (n =? 1)); discriminate.
      * injection H as -> <-.
        pose proof (recvFrame_fails_link st ErrDevice) as Hl. rewrite Hf in Hl.
        destruct (Hl eq_refl) as [Hl'|[Hl'|[c Hl']]]; discriminate.
    + intros H. inversion H as [|k st0 st1 st2 (pkt & st3 & Hf & E & Hw & ->) Hr]; subst.
      rewrite Hf, E. unfold bindM. rewrite sendAck_eq, Hw. cbn [Z.eqb Pos.eqb negb].
      now apply IH.
Qed.

End Recv.

Lemma RecvPacket_bad_checksum_frame (fuel : nat) :
  (5 <= fuel)%nat ->
  let d := bytes_port [0x05; 0x00; 0x28; 0x00; 0x00] in
  bad_frame d fuel init (mkState 5 [[CC_NACK]] 0)
  /\ RecvPacket d fuel init = RecvPacket_loop d fuel 2 (mkState 5 [[CC_NACK]] 0)
  /\ RecvPacket d fuel init = (Err ErrDeviceTimeout, mkState 9 [[CC_NACK]] 0).
Proof.
  intros Hf d. do 5 (destruct fuel as [|fuel]; [lia|]).
  split; [|split].
  - exists [0x05; 0x00; 0x28; 0x00; 0x00], (mkState 5 [] 0).
    repeat split; reflexivity.
  - reflexivity.
  - reflexivity.
Qed.

(** C4: [RecvPacket] writes single bytes only: one [0x33] for each frame
    that [decodePacket] rejects, after which it starts the receive again,
    and one [0xCC] for the frame that validates, whose payload it returns.
    It returns a payload exactly when a good frame follows fewer than three
    bad ones, and fails with [ErrDevice] exactly when three frames in a row
    were bad. On the stream [05 00 28 00 00] (checksum wrong) followed by
    silence it writes one [0x33], starts over, and the second attempt times
    out. *)
Theorem RecvPacket_ack_protocol (d : Port) (fuel : nat) (st : State) :
  (exists k tl, (k <= 3)%nat /\ (tl = [] \/ tl = [[0xCC]])
     /\ wlog (snd (RecvPacket d fuel st)) = wlog st ++ replicate k [0x33] ++ tl)
  /\ (forall data st', RecvPacket d fuel st = (Ok data, st') <->
        exists k st1, (k < 3)%nat /\ recv_retries d fuel k st st1
                      /\ good_frame d fuel st1 data st')
  /\ (forall k st1 data st',
        recv_retries d fuel k st st1 -> good_frame d fuel st1 data st' ->
        wlog st' = wlog st ++ replicate k [0x33] ++ [[0xCC]])
  /\ (forall st', RecvPacket d fuel st = (Err ErrDevice, st') <->
        recv_retries d fuel 3 st st')
  /\ (forall st', recv_retries d fuel 3 st st' ->
        wlog st' = wlog st ++ replicate 3 [0x33])
  /\ ((5 <= fuel)%nat ->
        let dev := bytes_port [0x05; 0x00; 0x28; 0x00; 0x00] in
        bad_frame dev fuel init (mkState 5 [[0x33]] 0)
        /\ RecvPacket dev fuel init = RecvPacket_loop dev fuel 2 (mkState 5 [[0x33]] 0)
        /\ RecvPacket dev fuel init = (Err ErrDeviceTimeout, mkState 9 [[0x33]] 0)).
Proof.
  split; [|split; [|split; [|split; [|split]]]].
  - apply (RecvPacket_loop_wlog d fuel 3).
  - apply (RecvPacket_loop_Ok d fuel 3).
  - intros k st1 data st' Hr Hg.
    rewrite (good_frame_wlog _ _ _ _ _ Hg), (recv_retries_wlog _ _ _ _ _ Hr).
    now rewrite <- app_assoc.
  - apply (RecvPacket_loop_ErrDevice d fuel 3).
  - apply recv_retries_wlog.
  - apply RecvPacket_bad_checksum_frame.
Qed.

Lemma RecvPacket_ack_protocol_witness :
  let d := bytes_port [0x05; 0x00; 0x28; 0x00; 0x00; 0x05; 0x28; 0x28; 0x00; 0x00] in
  recv_retries d 1 1 init (mkState 5 [[0x33]] 0)
  /\ good_frame d 1 (mkState 5 [[0x33]] 0) [0x28; 0x00; 0x00] (mkState 10 [[0x33]; [0xCC]] 0)
  /\ RecvPacket d 1 init = (Ok [0x28; 0x00; 0x00], mkState 10 [[0x33]; [0xCC]] 0).
Proof.
  intros d.
  assert (Hr : recv_retries d 1 1 init (mkState 5 [[0x33]] 0)).
  { apply recv_retries_S with (mkState 5 [[0x33]] 0); [|constructor].
    exists [0x05; 0x00; 0x28; 0x00; 0x00], (mkState 5 [] 0). repeat split; reflexivity. }
  assert (Hg : good_frame d 1 (mkState 5 [[0x33]] 0) [0x28; 0x00; 0x00]
                 (mkState 10 [[0x33]; [0xCC]] 0)).
  { exists [0x05; 0x28; 0x28; 0x00; 0x00], (mkState 10 [[0x33]] 0). repeat split; reflexivity. }
  split; [exact Hr|]. split; [exact Hg|].
  apply (proj1 (proj2 (RecvPacket_ack_protocol d 1 init))).
  exists 1%nat, (mkState 5 [[0x33]] 0). split; [lia|]. split; [exact Hr | exact Hg].
Defined.

(* ------------------------------------------------------------------ *)
(** ** What the packet layer can fail with *)

Section PacketErrors.

Variable d : Port.
Variable fuel : nat.

Lemma SendPacket_loop_errors (pkt : list Z) (left : nat) :
  forall st e,
    fst (SendPacket_loop d fuel pkt left st) = Err e -> link_error e \/ e = ErrDevice.
Proof.
  induction left as [|left IH]; intros st e.
  - intros H. injection H as <-. now right.
  - rewrite SendPacket_loop_S.
    destruct (Write d (length (wlog st)) pkt) as [c|n].
    + intros H. injection H as <-. left. right. right. now exists c.
    + destruct (negb (n =? len pkt)).
      * intros H. injection H as <-. left. right. now left.
      * pose proof (recvNonZero_loop_result d fuel 0 (after_write st pkt)) as Hr.
        unfold recvAck, recvNonZero.
        destruct (recvNonZero_loop d fuel 0 (after_write st pkt)) as [[ack|e'| |] st1];
          cbn [fst] in Hr; try discriminate.
        -- destruct (ack =? CC_ACK); [discriminate | apply IH].
        -- destruct e'; try (intros H; injection H as <-; now left). apply IH.
Qed.

Lemma SendPacket_loop_nlog (pkt : list Z) (left : nat) :
  forall st, nlog (snd (SendPacket_loop d fuel pkt left st)) = nlog st.
Proof.
  induction left as [|left IH]; intros st; [reflexivity|].
  rewrite SendPacket_loop_S.
  destruct (Write d (length (wlog st)) pkt) as [c|n]; [reflexivity|].
  destruct (negb (n =? len pkt)); [reflexivity|].
  pose proof (recvNonZero_loop_output d fuel 0 (after_write st pkt)) as [_ Hn].
  unfold recvAck, recvNonZero.
  destruct (recvNonZero_loop d fuel 0 (after_write st pkt)) as [[ack|e'| |] st1];
    cbn [snd] in Hn; try exact Hn.
  - destruct (ack =? CC_ACK); [exact Hn | now rewrite IH].
  - destruct e'; try exact Hn. now rewrite IH.
Qed.

Lemma RecvPacket_loop_errors (left : nat) :
  forall st e,
    fst (RecvPacket_loop d fuel left st) = Err e -> link_error e \/ e = ErrDevice.
Proof.
  induction left as [|left IH]; intros st e.
  - intros H. injection H as <-. now right.
  - cbn [RecvPacket_loop]. unfold bindM at 1.
    pose proof (recvFrame_fails_link d fuel st) as Hl.
    destruct (recvFrame d fuel st) as [[pkt|e'| |] st1]; cbn [fst] in *; try discriminate.
    + destruct (decodePacket_total pkt) as [E|E]; rewrite E; unfold bindM; rewrite sendAck_eq.
      * destruct (Write d (length (wlog st1)) [CC_NACK]) as [c|n].
        -- intros H. injection H as <-. left. right. right. now exists c.
        -- destruct (negb (n =? 1)); [|apply IH].
           intros H. injection H as <-. left. right. now left.
      * destruct (Write d (length (wlog st1)) [CC_ACK]) as [c|n].
        -- intros H. injection H as <-. left. right. right. now exists c.
        -- destruct (negb (n =? 1)); [|discriminate].
           intros H. injection H as <-. left. right. now left.
    + intros H. injection H as <-. left. now apply Hl.
Qed.

(** The first thing [SendPacket] does is to hand the frame to the port. *)
Lemma SendPacket_writes_first (pkt : list Z) (st : State) :
  exists rest, wlog (snd (SendPacket d fuel pkt st)) = wlog st ++ pkt :: rest.
Proof.
  destruct (SendPacket_loop_wlog d fuel pkt 3 st) as (k & _ & Hpos & Hw).
  destruct k as [|k]; [lia|]. exists (replicate k pkt). exact Hw.
Qed.

Lemma SendPacket_not_BadArguments (pkt : list Z) (st : State) :
  fst (SendPacket d fuel pkt st) <> Err ErrBadArguments.
Proof.
  intros H. apply SendPacket_loop_errors in H as [[H|[H|[c H]]]|H]; discriminate.
Qed.

Lemma RecvPacket_not_BadArguments (st : State) :
  fst (RecvPacket d fuel st) <> Err ErrBadArguments.
Proof.
  intros H. apply RecvPacket_loop_errors in H as [[H|[H|[c H]]]|H]; discriminate.
Qed.

Lemma RecvPacket_keeps_writes (st : State) :
  exists rest, wlog (snd (RecvPacket d fuel st)) = wlog st ++ rest.
Proof.
  destruct (RecvPacket_loop_wlog d fuel 3 st) as (k & tl & _ & _ & Hw).
  now exists (replicate k [CC_NACK] ++ tl).
Qed.

End PacketErrors.

(* ------------------------------------------------------------------ *)
(** ** The commands *)

Section Commands.

Variable d : Port.
Variable fuel : nat.

Lemma send_then_sent_first {A : Type} (frame : list Z) (k : unit -> M A) (st : State) :
  (forall u st1, fst (k u st1) <> Err ErrBadArguments
                 /\ exists rest, wlog (snd (k u st1)) = wlog st1 ++ rest) ->
  sent_first frame st (bindM (SendPacket d fuel frame) k st).
Proof.
  intros Hk. unfold bindM.
  pose proof (SendPacket_not_BadArguments d fuel frame st) as Hn.
  destruct (SendPacket_writes_first d fuel frame st) as (rest & Hw).
  destruct (SendPacket d fuel frame st) as [[u|e| |] st1]; cbn [fst snd] in *;
    try (split; [cbn [fst]; intros H; try discriminate H; injection H as ->; now apply Hn
                | now exists rest]).
  destruct (Hk u st1) as (Hk1 & rest' & Hk2). split; [exact Hk1|].
  exists (rest ++ rest'). rewrite Hk2, Hw. now rewrite <- app_assoc.
Qed.

Lemma SendPacket_sent_first (frame : list Z) (st : State) :
  sent_first frame st (SendPacket d fuel frame st).
Proof.
  split; [apply SendPacket_not_BadArguments | apply SendPacket_writes_first].
Qed.

Lemma MemoryRead_accepted (address typ count : Z) (st : State) :
  (typ =? ReadWriteType8Bit) && (count >? ReadMaxCount8Bit) = false ->
  (typ =? ReadWriteType32Bit) && (count >? ReadMaxCount32Bit) = false ->
  sent_first (encodeCmdPacket COMMAND_MEMORY_READ (be32 address ++ [to_byte typ; to_byte count]))
    st (MemoryRead d fuel address typ count st).
Proof.
  intros H8 H32. unfold MemoryRead. rewrite H8, H32.
  apply send_then_sent_first. intros _ st1.
  split; [apply RecvPacket_not_BadArguments | apply RecvPacket_keeps_writes].
Qed.

End Commands.

(** C8: [MemoryRead] with the 8-bit type and a count above 253 (254 or 255,
    the count being a byte), or with the 32-bit type and a count above 63,
    fails with [ErrBadArguments] and leaves the transport untouched; with a
    count up to 253 (8-bit) or up to 63 (32-bit) it does not fail with
    [ErrBadArguments] and writes the MemoryRead frame to the transport. *)
Theorem MemoryRead_count_limits (d : Port) (fuel : nat) (address count : Z) (st : State) :
  is_byte count ->
  let frame typ := encodeCmdPacket COMMAND_MEMORY_READ (be32 address ++ [typ; count]) in
  (253 < count ->
     MemoryRead d fuel address ReadWriteType8Bit count st = (Err ErrBadArguments, st))
  /\ (63 < count ->
     MemoryRead d fuel address ReadWriteType32Bit count st = (Err ErrBadArguments, st))
  /\ (count <= 253 ->
     sent_first (frame 0) st (MemoryRead d fuel address ReadWriteType8Bit count st))
  /\ (count <= 63 ->
     sent_first (frame 1) st (MemoryRead d fuel address ReadWriteType32Bit count st)).
Proof.
  intros Hc frame. unfold is_byte in Hc.
  assert (Hb : to_byte count = count) by (apply Z.mod_small; lia).
  split; [|split; [|split]]; intros H.
  - unfold MemoryRead. cbn [ReadWriteType8Bit Z.eqb andb].
    destruct (Z.gtb_spec count ReadMaxCount8Bit) as [_|Hle]; [reflexivity|].
    unfold ReadMaxCount8Bit in Hle. lia.
  - unfold MemoryRead. cbn [ReadWriteType8Bit ReadWriteType32Bit Z.eqb andb].
    destruct (Z.gtb_spec count ReadMaxCount32Bit) as [_|Hle]; [reflexivity|].
    unfold ReadMaxCount32Bit in Hle. lia.
  - unfold frame. rewrite <- Hb at 1.
    apply (MemoryRead_accepted d fuel address ReadWriteType8Bit count st).
    + cbn [ReadWriteType8Bit Z.eqb andb].
      destruct (Z.gtb_spec count ReadMaxCount8Bit) as [Hgt|_]; [|reflexivity].
      unfold ReadMaxCount8Bit in Hgt. lia.
    + reflexivity.
  - unfold frame. rewrite <- Hb at 1.
    apply (MemoryRead_accepted d fuel address ReadWriteType32Bit count st).
    + reflexivity.
    + cbn [ReadWriteType32Bit Z.eqb Pos.eqb andb].
      destruct (Z.gtb_spec count ReadMaxCount32Bit) as [Hgt|_]; [|reflexivity].
      unfold ReadMaxCount32Bit in Hgt. lia.
Qed.

Lemma MemoryRead_count_limits_witness :
  MemoryRead (bytes_port []) 5 0x20000000 ReadWriteType8Bit 254 init
    = (Err ErrBadArguments, init)
  /\ sent_first (encodeCmdPacket COMMAND_MEMORY_READ (be32 0x20000000 ++ [0; 253])) init
       (MemoryRead (bytes_port []) 5 0x20000000 ReadWriteType8Bit 253 init).
Proof.
  split.
  - apply (MemoryRead_count_limits (bytes_port []) 5 0x20000000 254 init);
      unfold is_byte; lia.
  - apply (MemoryRead_count_limits (bytes_port []) 5 0x20000000 253 init);
      unfold is_byte; lia.
Defined.

Section Write.

Variable d : Port.
Variable fuel : nat.

Lemma MemoryWrite_accepted (address typ : Z) (data : list Z) (st : State) :
  (typ =? ReadWriteType8Bit) && (to_byte (len data) >? WriteMaxCount8Bit) = false ->
  (typ =? ReadWriteType32Bit) && (to_byte (len data) >? WriteMaxCount32Bit) = false ->
  let run := MemoryWrite d fuel address typ data st in
  sent_first (encodeCmdPacket COMMAND_MEMORY_WRITE ((be32 address ++ [to_byte typ]) ++ data))
    st run
  /\ nlog (snd run)
     = if (typ =? ReadWriteType32Bit) && negb (len data mod 4 =? 0)
       then S (nlog st) else nlog st.
Proof.
  intros H8 H32. unfold MemoryWrite. rewrite H8, H32. unfold bindM at 1.
  destruct ((typ =? ReadWriteType32Bit) && negb (len data mod 4 =? 0)).
  - cbn [log_Printf]. split.
    + apply (SendPacket_sent_first d fuel _ (mkState (nread st) (wlog st) (S (nlog st)))).
    + apply (SendPacket_loop_nlog d fuel _ 3 (mkState (nread st) (wlog st) (S (nlog st)))).
  - cbn [retM]. split.
    + apply SendPacket_sent_first.
    + apply (SendPacket_loop_nlog d fuel _ 3).
Qed.

End Write.

(** C6, as stated, fails: a 32-bit write of three bytes is not rejected.
    It is reported with [log.Printf] and sent all the same. *)
Lemma MemoryWrite_unaligned_not_rejected :
  len [1; 2; 3] mod 4 <> 0
  /\ MemoryWrite (bytes_port [0xCC]) 1 0 ReadWriteType32Bit [1; 2; 3] init
     = (Ok tt, mkState 1 [[11; 50; 0x2B; 0; 0; 0; 0; 1; 1; 2; 3]] 1).
Proof. split; [discriminate | reflexivity]. Qed.

(** The length is compared after its conversion to [uint8]: a slice of 256
    bytes has the length byte 0 and passes the check in either mode. *)
Lemma MemoryWrite_length_wraps :
  fst (MemoryWrite (bytes_port [0xCC]) 1 0 ReadWriteType8Bit (replicate 256 0) init) = Ok tt
  /\ fst (MemoryWrite (bytes_port [0xCC]) 1 0 ReadWriteType32Bit (replicate 256 0) init) = Ok tt.
Proof. split; vm_compute; reflexivity. Qed.

(** C6 (amended): for a data slice of at most 255 bytes, [MemoryWrite]
    answers [ErrBadArguments], with the state untouched, exactly when the
    type is 8-bit and the length exceeds 247 or the type is 32-bit and the
    length exceeds 244; otherwise it writes the MemoryWrite frame to the
    transport. A 32-bit write whose length is within the limit and not a
    multiple of 4 is among the accepted ones: it prints one log line and
    the frame is sent. *)
Theorem MemoryWrite_length_limits
    (d : Port) (fuel : nat) (address typ : Z) (data : list Z) (st : State) :
  len data <= 255 ->
  let bad := (typ = ReadWriteType8Bit /\ 247 < len data)
             \/ (typ = ReadWriteType32Bit /\ 244 < len data) in
  let frame := encodeCmdPacket COMMAND_MEMORY_WRITE ((be32 address ++ [to_byte typ]) ++ data) in
  let run := MemoryWrite d fuel address typ data st in
  (fst run = Err ErrBadArguments <-> bad)
  /\ (bad -> run = (Err ErrBadArguments, st))
  /\ (~ bad -> sent_first frame st run)
  /\ (~ bad -> typ = ReadWriteType32Bit -> len data mod 4 <> 0 ->
      nlog (snd run) = S (nlog st)).
Proof.
  intros Hlen bad frame run.
  pose proof (len_nonneg data) as Hpos.
  assert (Hb : to_byte (len data) = len data) by (apply Z.mod_small; lia).
  assert (Hbad : bad -> run = (Err ErrBadArguments, st)).
  { intros [[-> H]|[-> H]]; unfold run, MemoryWrite; rewrite Hb.
    - cbn [ReadWriteType8Bit Z.eqb andb].
      destruct (Z.gtb_spec (len data) WriteMaxCount8Bit) as [_|Hle]; [reflexivity|].
      unfold WriteMaxCount8Bit in Hle. lia.
    - cbn [ReadWriteType8Bit ReadWriteType32Bit Z.eqb Pos.eqb andb].
      destruct (Z.gtb_spec (len data) WriteMaxCount32Bit) as [_|Hle]; [reflexivity|].
      unfold WriteMaxCount32Bit in Hle. lia. }
  assert (Hgood : ~ bad ->
            sent_first frame st run
            /\ nlog (snd run)
               = if (typ =? ReadWriteType32Bit) && negb (len data mod 4 =? 0)
                 then S (nlog st) else nlog st).
  { intros Hn. apply MemoryWrite_accepted; rewrite Hb.
    - destruct (Z.eqb_spec typ ReadWriteType8Bit) as [E|_]; [|reflexivity].
      destruct (Z.gtb_spec (len data) WriteMaxCount8Bit) as [Hgt|_]; [|reflexivity].
      exfalso. apply Hn. left. unfold WriteMaxCount8Bit in Hgt. split; [exact E | lia].
    - destruct (Z.eqb_spec typ ReadWriteType32Bit) as [E|_]; [|reflexivity].
      destruct (Z.gtb_spec (len data) WriteMaxCount32Bit) as [Hgt|_]; [|reflexivity].
      exfalso. apply Hn. right. unfold WriteMaxCount32Bit in Hgt. split; [exact E | lia]. }
  assert (Hdec : bad \/ ~ bad).
  { unfold bad, ReadWriteType8Bit, ReadWriteType32Bit. lia. }
  split; [|split; [exact Hbad|split]].
  - split.
    + intros H. destruct Hdec as [Hy|Hn]; [exact Hy|].
      destruct (Hgood Hn) as [[Hne _] _]. contradiction.
    + intros H. now rewrite (Hbad H).
  - intros Hn. now apply Hgood.
  - intros Hn -> Hmod. destruct (Hgood Hn) as [_ Hl]. rewrite Hl.
    cbn [ReadWriteType32Bit Z.eqb Pos.eqb andb].
    destruct (Z.eqb_spec (len data mod 4) 0); [contradiction|reflexivity].
Qed.

Lemma MemoryWrite_length_limits_witness :
  MemoryWrite (bytes_port [0xCC]) 1 0 ReadWriteType32Bit (replicate 245 0xFF) init
    = (Err ErrBadArguments, init)
  /\ sent_first
       (encodeCmdPacket COMMAND_MEMORY_WRITE ((be32 0 ++ [to_byte 1]) ++ replicate 244 0xFF))
       init
       (MemoryWrite (bytes_port [0xCC]) 1 0 ReadWriteType32Bit (replicate 244 0xFF) init).
Proof.
  split.
  - apply (MemoryWrite_length_limits (bytes_port [0xCC]) 1 0 ReadWriteType32Bit
             (replicate 245 0xFF) init); [vm_compute; discriminate|].
    right. split; [reflexivity | vm_compute; reflexivity].
  - apply (MemoryWrite_length_limits (bytes_port [0xCC]) 1 0 ReadWriteType32Bit
             (replicate 244 0xFF) init); [vm_compute; discriminate|].
    intros [[H _]|[_ H]]; [discriminate H | vm_compute in H; discriminate H].
Defined.

(* ------------------------------------------------------------------ *)
(** ** Big-endian fields *)

Lemma byte_at_div (x i : Z) : 0 <= i -> byte_at x i = (x / 2 ^ (i * 8)) mod 256.
Proof.
  intros Hi. unfold byte_at, to_byte.
  rewrite Z.shiftr_div_pow2 by lia.
  change 0xFF with (Z.ones 8). rewrite Z.land_ones by lia.
  change (2 ^ 8) with 256. now rewrite Z.mod_mod by lia.
Qed.

(** The four bytes of [be32 x], most significant first. *)
Lemma be32_div (x : Z) :
  be32 x = [(x / 2 ^ 24) mod 256; (x / 2 ^ 16) mod 256; (x / 2 ^ 8) mod 256; x mod 256].
Proof.
  unfold be32. rewrite !byte_at_div by lia.
  change (3 * 8) with 24. change (2 * 8) with 16. change (1 * 8) with 8.
  change (2 ^ (0 * 8)) with 1. now rewrite Z.div_1_r.
Qed.

Lemma lor_mul_small (hi lo n : Z) :
  0 <= n -> 0 <= lo < 2 ^ n -> Z.lor (hi * 2 ^ n) lo = hi * 2 ^ n + lo.
Proof.
  intros Hn Hlo. symmetry.
  assert (Hland : Z.land (hi * 2 ^ n) lo = 0).
  { apply Z.bits_inj'. intros i Hi. rewrite Z.land_spec, Z.bits_0.
    destruct (Z_lt_ge_dec i n) as [Hlt|Hge].
    - now rewrite Z.mul_pow2_bits_low by lia.
    - destruct (Z.eq_dec lo 0) as [->|Hne].
      + rewrite Z.bits_0. apply andb_false_r.
      + rewrite (Z.bits_above_log2 lo i); [apply andb_false_r | lia |].
        assert (Z.log2 lo < n) by (apply Z.log2_lt_pow2; lia). lia. }
  rewrite Z.add_nocarry_lxor by exact Hland.
  now apply Z.lxor_lor.
Qed.

Lemma shl32_byte (b i : Z) :
  is_byte b -> 0 <= i <= 3 -> shl32 b i = b * 2 ^ (i * 8).
Proof.
  intros Hb Hi. unfold shl32, is_byte in *.
  rewrite Z.shiftl_mul_pow2 by lia. apply Z.mod_small.
  assert (i = 0 \/ i = 1 \/ i = 2 \/ i = 3) as [-> | [-> | [-> | ->]]] by lia; cbn; lia.
Qed.

(** What [GetChipID] and [CRC32] assemble from four reply bytes. *)
Lemma decode_be32 (b0 b1 b2 b3 : Z) :
  is_byte b0 -> is_byte b1 -> is_byte b2 -> is_byte b3 ->
  Z.lor (Z.lor (Z.lor (Z.lor 0 (shl32 b0 3)) (shl32 b1 2)) (shl32 b2 1)) (shl32 b3 0)
  = b0 * 2 ^ 24 + b1 * 2 ^ 16 + b2 * 2 ^ 8 + b3.
Proof.
  intros H0 H1 H2 H3.
  rewrite !shl32_byte by (assumption || lia). unfold is_byte in *.
  change (3 * 8) with 24. change (2 * 8) with 16. change (1 * 8) with 8.
  change (2 ^ (0 * 8)) with 1. rewrite Z.lor_0_l, Z.mul_1_r.
  rewrite lor_mul_small by lia.
  replace (b0 * 2 ^ 24 + b1 * 2 ^ 16) with ((b0 * 2 ^ 8 + b1) * 2 ^ 16) by lia.
  rewrite lor_mul_small by lia.
  replace ((b0 * 2 ^ 8 + b1) * 2 ^ 16 + b2 * 2 ^ 8)
    with (((b0 * 2 ^ 8 + b1) * 2 ^ 8 + b2) * 2 ^ 8) by lia.
  rewrite lor_mul_small by lia. lia.
Qed.

(* ------------------------------------------------------------------ *)
(** ** Replies *)

(** C9: once the GetChipID frame is acknowledged and [RecvPacket] has
    returned the reply payload [data], [GetChipID] fails with [ErrDevice]
    if [data] is not exactly 4 bytes long, and otherwise returns the 4
    bytes read as a big-endian 32-bit number; the payload [[0; 0; 1; 0]]
    gives 256. *)
Theorem GetChipID_reply
    (d : Port) (fuel : nat) (st st1 st2 : State) (data : list Z) :
  SendPacket d fuel (encodeCmdPacket COMMAND_GET_CHIP_ID []) st = (Ok tt, st1) ->
  RecvPacket d fuel st1 = (Ok data, st2) ->
  (len data <> 4 -> GetChipID d fuel st = (Err ErrDevice, st2))
  /\ (forall b0 b1 b2 b3,
        data = [b0; b1; b2; b3] ->
        is_byte b0 -> is_byte b1 -> is_byte b2 -> is_byte b3 ->
        GetChipID d fuel st = (Ok (b0 * 2 ^ 24 + b1 * 2 ^ 16 + b2 * 2 ^ 8 + b3), st2))
  /\ (data = [0x00; 0x00; 0x01; 0x00] -> GetChipID d fuel st = (Ok 256, st2)).
Proof.
  intros Hs Hr.
  assert (Hrun : GetChipID d fuel st =
            (if negb (len data =? 4) then failM ErrDevice
             else
               doM b0 <- liftR (index data 0) ;
               doM b1 <- liftR (index data 1) ;
               doM b2 <- liftR (index data 2) ;
               doM b3 <- liftR (index data 3) ;
               retM (Z.lor (Z.lor (Z.lor (Z.lor 0 (shl32 b0 3)) (shl32 b1 2)) (shl32 b2 1))
                       (shl32 b3 0))) st2).
  { unfold GetChipID. unfold bindM at 1. rewrite Hs. unfold bindM at 1. now rewrite Hr. }
  split; [|split].
  - intros Hlen. rewrite Hrun.
    destruct (Z.eqb_spec (len data) 4); [contradiction|reflexivity].
  - intros b0 b1 b2 b3 -> H0 H1 H2 H3. rewrite Hrun.
    change (len [b0; b1; b2; b3] =? 4) with true. cbn [negb].
    unfold bindM, liftR, retM. cbn [index lookup list_lookup].
    now rewrite decode_be32.
  - intros ->. rewrite Hrun. reflexivity.
Qed.

Lemma GetChipID_reply_witness :
  GetChipID (bytes_port [0xCC; 0x06; 0x01; 0x00; 0x00; 0x01; 0x00]) 1 init
    = (Ok 256, mkState 7 [[3; 0x28; 0x28]; [0xCC]] 0)
  /\ GetChipID (bytes_port [0xCC; 0x05; 0x01; 0x00; 0x00; 0x01]) 1 init
    = (Err ErrDevice, mkState 6 [[3; 0x28; 0x28]; [0xCC]] 0).
Proof.
  split.
  - apply (GetChipID_reply _ 1 init (mkState 1 [[3; 0x28; 0x28]] 0) _ [0; 0; 1; 0]);
      reflexivity.
  - apply (GetChipID_reply _ 1 init (mkState 1 [[3; 0x28; 0x28]] 0) _ [0; 0; 1]);
      [reflexivity | reflexivity | discriminate].
Defined.

(** Whatever [RecvPacket] returns short of four bytes makes [CRC32] index
    out of range. *)
Lemma CRC32_short_reply
    (d : Port) (fuel : nat) (address size rcount : Z) (st st1 st2 : State) (data : list Z) :
  SendPacket d fuel
    (encodeCmdPacket COMMAND_CRC32 (be32 address ++ be32 size ++ be32 rcount)) st
    = (Ok tt, st1) ->
  RecvPacket d fuel st1 = (Ok data, st2) ->
  (length data < 4)%nat ->
  CRC32 d fuel address size rcount st = (Panic, st2).
Proof.
  intros Hs Hr Hlen. unfold CRC32. unfold bindM at 1. rewrite Hs.
  unfold bindM at 1. rewrite Hr.
  destruct data as [|b0 [|b1 [|b2 [|b3 rest]]]]; try reflexivity.
  cbn [length] in Hlen. lia.
Qed.

(** C7 fails on the code: [CRC32] does not look at the length of the reply.
    After a well-formed reply frame carrying the single byte [0x40] it
    panics on [data[1]]; after one carrying five bytes it returns a number
    made of the first four and no error. *)
Theorem CRC32_reply_length_unchecked :
  CRC32 (bytes_port [0xCC; 0x03; 0x40; 0x40]) 1 0 4 1 init
    = (Panic, mkState 4 [[15; 0x2C; 0x27; 0; 0; 0; 0; 0; 0; 0; 4; 0; 0; 0; 1]; [0xCC]] 0)
  /\ decodePacket [0x03; 0x40; 0x40] = Ok [0x40]
  /\ CRC32 (bytes_port [0xCC; 0x07; 0x01; 0x00; 0x00; 0x01; 0x00; 0x00]) 1 0 4 1 init
    = (Ok 256, mkState 8 [[15; 0x2C; 0x27; 0; 0; 0; 0; 0; 0; 0; 4; 0; 0; 0; 1]; [0xCC]] 0)
  /\ decodePacket [0x07; 0x01; 0x00; 0x00; 0x01; 0x00; 0x00] = Ok [0x00; 0x00; 0x01; 0x00; 0x00].
Proof. repeat split; reflexivity. Qed.

(** C5 fails on the code: the frame [SetCCFG] sends carries the command
    byte of CRC32, [0x27], in front of the two big-endian fields, not
    [0x2D]. *)
Theorem SetCCFG_sends_CRC32_command
    (d : Port) (fuel : nat) (id value : Z) (st : State) :
  let frame := encodePacket (0x27 :: be32 id ++ be32 value) in
  sent_first frame st (SetCCFG d fuel id value st)
  /\ decodePacket frame = Ok (0x27 :: be32 id ++ be32 value)
  /\ frame <> encodePacket (COMMAND_SET_CCFG :: be32 id ++ be32 value)
  /\ SetCCFG (bytes_port [0xCC]) 1 14 0xC5 init
     = (Ok tt, mkState 1 [[11; 0xFA; 0x27; 0; 0; 0; 14; 0; 0; 0; 0xC5]] 0).
Proof.
  intros frame. split; [|split; [|split]].
  - unfold SetCCFG, encodeCmdPacket. rewrite Marshal_eq.
    apply SendPacket_sent_first.
  - apply decodePacket_encodePacket. rewrite len_cons. pose proof (len_nonneg (be32 id ++ be32 value)). lia.
  - unfold frame. rewrite !encodePacket_eq. intros H.
    apply (f_equal (fun l : list Z => l !! 2%nat)) in H.
    cbn [lookup list_lookup] in H. discriminate H.
  - reflexivity.
Qed.

(* ------------------------------------------------------------------ *)
(** ** More on the checksum *)

Lemma sum_bytes_app (a b : list Z) : sum_bytes (a ++ b) = sum_bytes a + sum_bytes b.
Proof.
  induction a as [|x a IH]; cbn [app sum_bytes fold_right]; [reflexivity|].
  fold (sum_bytes (a ++ b)). fold (sum_bytes a). lia.
Qed.

(** X1: the checksum of a concatenation is the wrapped sum of the
    checksums of its parts. *)
Theorem checksum_app (a b : list Z) :
  checksum (a ++ b) = (checksum a + checksum b) mod 256.
Proof.
  rewrite !checksum_sum, sum_bytes_app. now rewrite <- Zplus_mod.
Qed.

(** X2: the checksum does not see the order of the bytes: a frame whose
    payload bytes were permuted on the way is accepted, and decodes to the
    permuted payload. *)
Theorem decodePacket_blind_to_order (P P' : list Z) :
  Permutation P P' ->
  checksum P' = checksum P
  /\ (1 <= len P ->
      decodePacket (encodeSize (2 + len P) :: checksum P :: P') = Ok P').
Proof.
  intros Hperm.
  assert (Hsum : sum_bytes P' = sum_bytes P).
  { clear -Hperm. induction Hperm as [|x l l' _ IH|x y l|l l' l'' _ IH1 _ IH2];
      cbn [sum_bytes fold_right] in *; try fold (sum_bytes l) in *;
      try fold (sum_bytes l') in *; lia. }
  assert (Hlen : len P' = len P).
  { unfold len. now rewrite (Permutation_length Hperm). }
  split; [now rewrite !checksum_sum, Hsum|].
  intros Hpos. rewrite decodePacket_cons2 by (rewrite !len_cons; lia).
  rewrite !len_cons, Hlen, encodeSize_mod, checksum_sum, Hsum.
  replace (1 + (1 + len P)) with (2 + len P) by lia.
  now rewrite !Z.eqb_refl.
Qed.

Lemma decodePacket_blind_to_order_witness :
  decodePacket (encodeSize 5 :: checksum [0x28; 0x01; 0x02] :: [0x02; 0x28; 0x01])
  = Ok [0x02; 0x28; 0x01].
Proof.
  apply (decodePacket_blind_to_order [0x28; 0x01; 0x02] [0x02; 0x28; 0x01]).
  - apply Permutation_sym, (Permutation_cons_append [0x28; 0x01] 0x02).
  - vm_compute. discriminate.
Defined.

(** X3: one payload byte replaced by a different byte is always detected:
    the frame that carried [pre ++ b :: post] is rejected when it arrives
    with [b'] in the place of [b]. *)
Theorem decodePacket_detects_corrupted_byte (pre post : list Z) (b b' : Z) :
  is_byte b -> is_byte b' -> b <> b' ->
  let P := pre ++ b :: post in
  decodePacket (encodeSize (2 + len P) :: checksum P :: pre ++ b' :: post)
  = Err ErrBadPacket.
Proof.
  intros Hb Hb' Hne P. unfold is_byte in *.
  assert (Hlen : len (pre ++ b' :: post) = len P).
  { unfold P, len. now rewrite !length_app. }
  assert (Hpos : 1 <= len P).
  { unfold P, len. rewrite length_app. cbn [length]. lia. }
  rewrite decodePacket_cons2 by (rewrite !len_cons; lia).
  rewrite !len_cons, Hlen, encodeSize_mod, checksum_sum.
  replace (1 + (1 + len P)) with (2 + len P) by lia.
  rewrite Z.eqb_refl. cbn [negb].
  destruct (Z.eqb_spec (sum_bytes (pre ++ b' :: post) mod 256) (sum_bytes P mod 256))
    as [E|_]; [exfalso|reflexivity].
  unfold P in E. rewrite !sum_bytes_app in E. cbn [sum_bytes fold_right] in E.
  fold (sum_bytes post) in E.
  set (s := sum_bytes pre + sum_bytes post) in *.
  replace (sum_bytes pre + (b' + sum_bytes post)) with (s + b') in E by (unfold s; lia).
  replace (sum_bytes pre + (b + sum_bytes post)) with (s + b) in E by (unfold s; lia).
  assert (Hd : (b' - b) mod 256 = 0).
  { replace (b' - b) with ((s + b') - (s + b)) by lia.
    rewrite Zminus_mod, E, Z.sub_diag. reflexivity. }
  apply Z.mod_divide in Hd; [|lia]. destruct Hd as [q Hq]. lia.
Qed.

Lemma decodePacket_detects_corrupted_byte_witness :
  decodePacket (encodeSize 5 :: checksum [0x28; 0x01; 0x02] :: [0x28; 0x03; 0x02])
  = Err ErrBadPacket.
Proof.
  apply (decodePacket_detects_corrupted_byte [0x28] [0x02] 0x01 0x03);
    unfold is_byte; lia.
Defined.

(* ------------------------------------------------------------------ *)
(** ** Commands inside packets *)

Lemma Unmarshal_cons (t : Z) (ps : list Z) : Unmarshal (t :: ps) = Ok (mkCommand t ps).
Proof.
  unfold Unmarshal. rewrite len_cons.
  pose proof (len_nonneg ps). destruct (Z.ltb_spec (1 + len ps) 1); [lia|reflexivity].
Qed.

(** X4: [Unmarshal] fails, with [ErrBadPacket], on the empty slice only,
    and otherwise splits off the first byte as the command type; on a
    command whose type is a byte it undoes [Marshal]. *)
Theorem Unmarshal_spec (data : list Z) (c : Command) :
  (Unmarshal data = Err ErrBadPacket <-> data = [])
  /\ (Unmarshal data = Ok c <-> data = Type_ c :: Parameters c)
  /\ (is_byte (Type_ c) -> Unmarshal (Marshal c) = Ok c).
Proof.
  split; [|split].
  - destruct data as [|t ps]; [split; reflexivity|].
    rewrite Unmarshal_cons. split; discriminate.
  - destruct data as [|t ps].
    + split; intros H; [vm_compute in H|]; discriminate H.
    + rewrite Unmarshal_cons. destruct c as [t' ps']. cbn [Type_ Parameters].
      split; intros H; injection H as -> ->; reflexivity.
  - intros Hb. destruct c as [t ps]. cbn [Type_] in Hb.
    rewrite Marshal_eq, Unmarshal_cons. unfold to_byte.
    now rewrite Z.mod_small by exact Hb.
Qed.

Lemma Unmarshal_spec_witness :
  Unmarshal (Marshal (mkCommand COMMAND_DOWNLOAD [1; 2; 3]))
  = Ok (mkCommand COMMAND_DOWNLOAD [1; 2; 3]).
Proof.
  apply (Unmarshal_spec [] (mkCommand COMMAND_DOWNLOAD [1; 2; 3])).
  unfold is_byte, COMMAND_DOWNLOAD. cbn [Type_]. lia.
Defined.

Lemma decodeCmdPacket_roundtrip (cmd : Z) (parameters : list Z) :
  is_byte cmd ->
  decodeCmdPacket (encodeCmdPacket cmd parameters) = Ok (mkCommand cmd parameters).
Proof.
  intros Hb. unfold decodeCmdPacket, encodeCmdPacket.
  rewrite Marshal_eq, decodePacket_encodePacket.
  - cbn [bindR]. rewrite Unmarshal_cons. unfold to_byte.
    now rewrite Z.mod_small by exact Hb.
  - rewrite len_cons. pose proof (len_nonneg parameters). lia.
Qed.

(** X5: a command survives [encodeCmdPacket] followed by [decodeCmdPacket],
    whatever the number of its parameters; the frame is three bytes longer
    than the parameters. *)
Theorem decodeCmdPacket_encodeCmdPacket (cmd : Z) (parameters : list Z) :
  is_byte cmd ->
  decodeCmdPacket (encodeCmdPacket cmd parameters) = Ok (mkCommand cmd parameters)
  /\ len (encodeCmdPacket cmd parameters) = 3 + len parameters.
Proof.
  intros Hb. split; [now apply decodeCmdPacket_roundtrip|].
  unfold encodeCmdPacket. rewrite Marshal_eq, encodePacket_eq, !len_cons. lia.
Qed.

Lemma decodeCmdPacket_encodeCmdPacket_witness :
  decodeCmdPacket (encodeCmdPacket COMMAND_PING []) = Ok (mkCommand COMMAND_PING []).
Proof. apply decodeCmdPacket_encodeCmdPacket. unfold is_byte, COMMAND_PING. lia. Defined.

(** X6: [decodeCmdPacket] fails exactly when [decodePacket] does, and with
    [ErrBadPacket]: a payload that [decodePacket] lets through is never
    empty, so the length check of [Unmarshal] cannot fail behind it. *)
Theorem decodeCmdPacket_fails_as_decodePacket (pkt : list Z) :
  (decodePacket pkt = Err ErrBadPacket /\ decodeCmdPacket pkt = Err ErrBadPacket)
  \/ (exists t ps, decodePacket pkt = Ok (t :: ps)
                   /\ decodeCmdPacket pkt = Ok (mkCommand t ps)).
Proof.
  unfold decodeCmdPacket.
  destruct (Z_lt_ge_dec (len pkt) 3) as [Hlt|Hge].
  - left. unfold decodePacket. destruct (Z.ltb_spec (len pkt) 3); [now split|lia].
  - destruct pkt as [|b0 [|b1 [|b2 rest]]]; try (cbv in Hge; congruence).
    rewrite decodePacket_cons2 by lia.
    destruct (negb _); [left; now split|]. destruct (negb _); [left; now split|].
    right. exists b2, rest. cbn [bindR]. now rewrite Unmarshal_cons.
Qed.

(* ------------------------------------------------------------------ *)
(** ** decodeUint32 *)

Section Uint32.

Variable w : Z.
Hypothesis uint_wide : 32 <= w.

Lemma uint_modulus : 2 ^ 32 <= 2 ^ w.
Proof. apply Z.pow_le_mono_r; lia. Qed.

Lemma decodeUint32_shift (msb : Z) (i : nat) (b : Z) :
  is_byte b -> 0 <= msb - Z.of_nat i <= 3 ->
  Z.shiftl (to_byte b) ((uint_sub w msb (Z.of_nat i) * 8) mod 2 ^ w) mod 2 ^ 32
  = shl32 b (msb - Z.of_nat i).
Proof.
  intros Hb Hi. pose proof uint_modulus as Hw. unfold is_byte in Hb.
  unfold shl32, uint_sub, to_byte.
  rewrite (Z.mod_small b 256) by lia.
  rewrite (Z.mod_small (msb - Z.of_nat i)) by lia.
  now rewrite (Z.mod_small ((msb - Z.of_nat i) * 8)) by lia.
Qed.

Lemma decodeUint32_loop_step (msb : Z) (value : list Z) (todo i : nat) (u b : Z) :
  value !! i = Some b -> (i < 4)%nat ->
  decodeUint32_loop w msb value (S todo) i u
  = decodeUint32_loop w msb value todo (S i)
      (Z.lor u (Z.shiftl (to_byte b) ((uint_sub w msb (Z.of_nat i) * 8) mod 2 ^ w)
                mod 2 ^ 32)).
Proof.
  intros Hb Hi. cbn [decodeUint32_loop].
  pose proof (lookup_lt_Some _ _ _ Hb) as Hlt.
  destruct (Z.ltb_spec (Z.of_nat i) (len value)) as [_|Hge]; [|unfold len in Hge; lia].
  destruct (Z.ltb_spec (Z.of_nat i) 4) as [_|Hge]; [|lia].
  cbn [andb]. unfold index. now rewrite Hb.
Qed.

Lemma decodeUint32_loop_stop (msb : Z) (value : list Z) (todo : nat) (u : Z) :
  decodeUint32_loop w msb value todo (length value) u = Ok u.
Proof.
  destruct todo as [|todo]; [reflexivity|]. cbn [decodeUint32_loop].
  destruct (Z.ltb_spec (Z.of_nat (length value)) (len value)) as [Hlt|_];
    [unfold len in Hlt; lia | reflexivity].
Qed.

Lemma uint_sub_small (a b : Z) : 0 <= a - b < 2 ^ 32 -> uint_sub w a b = a - b.
Proof.
  intros H. pose proof uint_modulus. unfold uint_sub. apply Z.mod_small. lia.
Qed.

Ltac decode_steps :=
  repeat (erewrite decodeUint32_loop_step by (reflexivity || lia);
          rewrite decodeUint32_shift by (assumption || (cbn; lia))).

(** [decodeUint32] reads up to four bytes, most significant first. *)
Lemma decodeUint32_be_value (value : list Z) :
  Forall is_byte value ->
  decodeUint32 w value = Ok (be_value (take 4 value)).
Proof.
  intros Hall. unfold decodeUint32.
  destruct value as [|b0 [|b1 [|b2 [|b3 rest]]]].
  - reflexivity.
  - apply Forall_cons in Hall as [H0 _].
    change (len [b0] <? 4) with true. cbv iota.
    change (len [b0]) with 1. rewrite uint_sub_small by lia. change (1 - 1) with 0.
    decode_steps. rewrite (decodeUint32_loop_stop 0 [b0]).
    pose proof (decode_be32 0 0 0 b0) as E. unfold is_byte in *.
    cbn [take be_value fold_left]. f_equal.
    transitivity (0 * 2 ^ 24 + 0 * 2 ^ 16 + 0 * 2 ^ 8 + b0); [|lia].
    rewrite <- E by lia. reflexivity.
  - apply Forall_cons in Hall as [H0 Hall]. apply Forall_cons in Hall as [H1 _].
    change (len [b0; b1] <? 4) with true. cbv iota.
    change (len [b0; b1]) with 2. rewrite uint_sub_small by lia. change (2 - 1) with 1.
    decode_steps. rewrite (decodeUint32_loop_stop 1 [b0; b1]).
    pose proof (decode_be32 0 0 b0 b1) as E. unfold is_byte in *.
    cbn [take be_value fold_left]. f_equal.
    transitivity (0 * 2 ^ 24 + 0 * 2 ^ 16 + b0 * 2 ^ 8 + b1); [|lia].
    rewrite <- E by lia. reflexivity.
  - apply Forall_cons in Hall as [H0 Hall]. apply Forall_cons in Hall as [H1 Hall].
    apply Forall_cons in Hall as [H2 _].
    change (len [b0; b1; b2] <? 4) with true. cbv iota.
    change (len [b0; b1; b2]) with 3. rewrite uint_sub_small by lia. change (3 - 1) with 2.
    decode_steps. rewrite (decodeUint32_loop_stop 2 [b0; b1; b2]).
    pose proof (decode_be32 0 b0 b1 b2) as E. unfold is_byte in *.
    cbn [take be_value fold_left]. f_equal.
    transitivity (0 * 2 ^ 24 + b0 * 2 ^ 16 + b1 * 2 ^ 8 + b2); [|lia].
    rewrite <- E by lia. reflexivity.
  - apply Forall_cons in Hall as [H0 Hall]. apply Forall_cons in Hall as [H1 Hall].
    apply Forall_cons in Hall as [H2 Hall]. apply Forall_cons in Hall as [H3 _].
    destruct (Z.ltb_spec (len (b0 :: b1 :: b2 :: b3 :: rest)) 4) as [Hlt|_].
    { rewrite !len_cons in Hlt. pose proof (len_nonneg rest). lia. }
    decode_steps. cbn [decodeUint32_loop].
    pose proof (decode_be32 b0 b1 b2 b3 H0 H1 H2 H3) as E.
    change (take 4 (b0 :: b1 :: b2 :: b3 :: rest)) with [b0; b1; b2; b3].
    cbn [be_value fold_left]. f_equal.
    transitivity (b0 * 2 ^ 24 + b1 * 2 ^ 16 + b2 * 2 ^ 8 + b3); [|lia].
    rewrite <- E. reflexivity.
Qed.

End Uint32.

Lemma be32_bytes (x : Z) : Forall is_byte (be32 x).
Proof.
  rewrite be32_div. unfold is_byte.
  repeat (constructor; [apply Z.mod_pos_bound; lia|]). constructor.
Qed.

Lemma be_value_be32 (x : Z) : is_uint32 x -> be_value (be32 x) = x.
Proof.
  unfold is_uint32. intros Hx. rewrite be32_div. cbn [be_value fold_left].
  change (2 ^ 32) with 4294967296 in Hx. change (2 ^ 24) with 16777216.
  change (2 ^ 16) with 65536. change (2 ^ 8) with 256.
  Z.div_mod_to_equations. lia.
Qed.

Lemma decodeUint32_of_be32 (w x : Z) :
  32 <= w -> is_uint32 x -> decodeUint32 w (be32 x) = Ok x.
Proof.
  intros Hw Hx. rewrite decodeUint32_be_value by (exact Hw || apply be32_bytes).
  change (take 4 (be32 x)) with (be32 x). now rewrite be_value_be32.
Qed.

(** X7: [decodeUint32] undoes the big-endian layout that the commands give
    their 32-bit arguments. *)
Theorem decodeUint32_be32 (w x : Z) :
  32 <= w -> is_uint32 x ->
  decodeUint32 w (be32 x) = Ok x /\ be_value (be32 x) = x.
Proof.
  intros Hw Hx. split; [now apply decodeUint32_of_be32 | now apply be_value_be32].
Qed.

Lemma decodeUint32_be32_witness : decodeUint32 64 (be32 0x20000400) = Ok 0x20000400.
Proof. apply decodeUint32_be32; unfold is_uint32; lia. Defined.

(** X8: [decodeUint32] never fails on bytes: it reads at most the first
    four of them, most significant first, so that a shorter slice gives
    the number its bytes spell, the empty slice gives 0, and whatever
    follows the fourth byte is ignored; the result is a 32-bit number. *)
Theorem decodeUint32_reads_four (w : Z) (value : list Z) :
  32 <= w -> Forall is_byte value ->
  decodeUint32 w value = Ok (be_value (take 4 value))
  /\ is_uint32 (be_value (take 4 value))
  /\ decodeUint32 w value = decodeUint32 w (take 4 value).
Proof.
  intros Hw Hall.
  assert (Hall4 : Forall is_byte (take 4 value)) by now apply Forall_take.
  split; [|split].
  - now apply decodeUint32_be_value.
  - clear -Hall4. unfold is_uint32, is_byte in *.
    destruct (take 4 value) as [|b0 [|b1 [|b2 [|b3 rest]]]] eqn:E;
      repeat match goal with
             | H : Forall _ (_ :: _) |- _ => apply Forall_cons in H as [? H]
             end; cbn [be_value fold_left]; try lia.
    assert (Hl : (length (take 4 value) <= 4)%nat) by (rewrite length_take; lia).
    rewrite E in Hl. destruct rest; [|cbn [length] in Hl; lia].
    cbn [fold_left]. lia.
  - rewrite !decodeUint32_be_value by assumption.
    now rewrite take_take.
Qed.

Lemma decodeUint32_reads_four_witness :
  decodeUint32 64 [0x01; 0x02] = Ok 0x0102
  /\ decodeUint32 64 [0x00; 0x00; 0x01; 0x00; 0xFF; 0xFF] = decodeUint32 64 [0x00; 0x00; 0x01; 0x00].
Proof.
  split.
  - apply (decodeUint32_reads_four 64 [0x01; 0x02]); [lia|].
    repeat (constructor; [unfold is_byte; lia|]). constructor.
  - apply (decodeUint32_reads_four 64 [0x00; 0x00; 0x01; 0x00; 0xFF; 0xFF]); [lia|].
    repeat (constructor; [unfold is_byte; lia|]). constructor.
Defined.

(** X9: the layout of a 32-bit argument is four bytes, and different
    arguments get different layouts. *)
Theorem be32_injective (x y : Z) :
  length (be32 x) = 4%nat /\ Forall is_byte (be32 x)
  /\ (is_uint32 x -> is_uint32 y -> be32 x = be32 y -> x = y).
Proof.
  split; [reflexivity|]. split; [apply be32_bytes|].
  intros Hx Hy E. rewrite <- (be_value_be32 x Hx), <- (be_value_be32 y Hy).
  now rewrite E.
Qed.

Lemma be32_injective_witness : be32 1 <> be32 256.
Proof.
  intros E. apply (be32_injective 1 256) in E; [discriminate E | |]; unfold is_uint32; lia.
Defined.

(* ------------------------------------------------------------------ *)
(** ** recvByte and its bound *)

Section ByteBound.

Variable d : Port.

Lemma recvByte_loop_bounded (m : nat) :
  forall fuel st,
    (m <= 4)%nat -> (S m <= fuel)%nat ->
    let r := recvByte_loop d fuel (4 - Z.of_nat m) st in
    fst r <> OutOfFuel /\ fst r <> Panic
    /\ (nread st <= nread (snd r) <= nread st + m)%nat
    /\ r = recvByte_loop d (S m) (4 - Z.of_nat m) st.
Proof.
  induction m as [|m IH]; intros fuel st Hm Hf; (destruct fuel as [|fuel]; [lia|]).
  - cbv zeta. cbn [recvByte_loop]. change (4 - Z.of_nat 0 >? numAttempts) with true.
    cbn. repeat split; try discriminate; lia.
  - cbv zeta. cbn [recvByte_loop].
    destruct (Z.gtb_spec (4 - Z.of_nat (S m)) numAttempts) as [Hgt|_];
      [unfold numAttempts in Hgt; lia|].
    unfold bindM, port_Read.
    destruct (Read d (nread st)) as [c|n b].
    + cbn. repeat split; try discriminate; lia.
    + destruct (n =? 0).
      * replace (4 - Z.of_nat (S m) + 1) with (4 - Z.of_nat m) by lia.
        destruct (IH fuel (mkState (S (nread st)) (wlog st) (nlog st)))
          as (H1 & H2 & H3 & H4); [lia|lia|].
        cbn [nread] in H3. repeat split; try assumption; lia.
      * destruct (n =? 1); cbn; repeat split; try discriminate; lia.
Qed.

Lemma recvByte_loop_after_empties (k : nat) :
  forall fuel attempts st b,
    0 <= attempts -> attempts + Z.of_nat k <= numAttempts -> (k < fuel)%nat ->
    (forall i, (i < k)%nat -> is_empty (Read d (nread st + i)) = true) ->
    Read d (nread st + k) = ReadLen 1 b ->
    recvByte_loop d fuel attempts st = (Ok b, reads_done (S k) st).
Proof.
  induction k as [|k IH]; intros fuel attempts st b Ha Hk Hf Hempty Hb;
    (destruct fuel as [|fuel]; [lia|]); cbn [recvByte_loop];
    (destruct (Z.gtb_spec attempts numAttempts) as [Hgt|_]; [lia|]);
    unfold bindM, port_Read.
  - rewrite Nat.add_0_r in Hb. rewrite Hb. cbn. unfold reads_done.
    do 2 f_equal. lia.
  - specialize (Hempty 0%nat ltac:(lia)) as He. rewrite Nat.add_0_r in He.
    destruct (Read d (nread st)) as [c|n b0]; [discriminate|].
    cbn [is_empty] in He. rewrite He.
    rewrite (IH fuel (attempts + 1) (mkState (S (nread st)) (wlog st) (nlog st)) b);
      try lia.
    + unfold reads_done. cbn [nread wlog nlog]. do 2 f_equal. lia.
    + intros i Hi. cbn [nread].
      replace (S (nread st) + i)%nat with (nread st + S i)%nat by lia.
      apply Hempty. lia.
    + cbn [nread]. now replace (S (nread st) + k)%nat with (nread st + S k)%nat by lia.
Qed.

Lemma recvNonZero_loop_silent (m : nat) :
  silent d ->
  forall fuel st,
    (m <= 4)%nat -> (S m <= fuel)%nat ->
    recvNonZero_loop d fuel (4 - Z.of_nat m) st = (Err ErrDeviceTimeout, reads_done m st).
Proof.
  intros Hs. induction m as [|m IH]; intros fuel st Hm Hf;
    (destruct fuel as [|fuel]; [lia|]).
  - cbn [recvByte_loop recvNonZero_loop].
    change (4 - Z.of_nat 0 >? numAttempts) with true. cbv iota.
    unfold failM, reads_done. rewrite Nat.add_0_r. now destruct st.
  - rewrite recvNonZero_loop_empty; [|unfold numAttempts; lia|apply Hs].
    replace (4 - Z.of_nat (S m) + 1) with (4 - Z.of_nat m) by lia.
    rewrite IH by lia. unfold reads_done, read_done. cbn [nread wlog nlog].
    do 2 f_equal. lia.
Qed.

End ByteBound.

(** X10: [recvByte] always comes back: with fuel for five turns of its loop
    it returns a byte or an error after at most four reads, never panics,
    and more fuel changes nothing. *)
Theorem recvByte_bounded (d : Port) (fuel : nat) (st : State) :
  (5 <= fuel)%nat ->
  let r := recvByte d fuel st in
  fst r <> OutOfFuel /\ fst r <> Panic
  /\ (nread st <= nread (snd r) <= nread st + 4)%nat
  /\ r = recvByte d 5 st.
Proof.
  intros Hf. unfold recvByte.
  apply (recvByte_loop_bounded d 4 fuel st); lia.
Qed.

Lemma recvByte_bounded_witness :
  recvByte (bytes_port [0x00]) 9 init = recvByte (bytes_port [0x00]) 5 init.
Proof. apply (recvByte_bounded (bytes_port [0x00]) 9 init). lia. Defined.

(** X11: [recvByte] returns the byte of the first read that is not empty,
    zero or not, when at most three empty reads come before it; after four
    empty reads it gives up with [ErrDeviceTimeout]. *)
Theorem recvByte_first_byte (d : Port) (fuel : nat) (st : State) (k : nat) (b : Z) :
  (forall i, (i < k)%nat -> is_empty (Read d (nread st + i)) = true) ->
  ((k <= 3)%nat -> (k < fuel)%nat -> Read d (nread st + k) = ReadLen 1 b ->
     recvByte d fuel st = (Ok b, reads_done (S k) st))
  /\ ((4 <= k)%nat -> (5 <= fuel)%nat ->
     recvByte d fuel st = (Err ErrDeviceTimeout, reads_done 4 st)).
Proof.
  intros Hempty. split.
  - intros Hk Hf Hb. unfold recvByte.
    apply recvByte_loop_after_empties; try assumption; unfold numAttempts; lia.
  - intros Hk Hf. unfold recvByte. revert fuel Hf st Hempty.
    assert (Hgen : forall (m : nat) fuel st,
              (m <= 4)%nat -> (S m <= fuel)%nat ->
              (forall i, (i < m)%nat -> is_empty (Read d (nread st + i)) = true) ->
              recvByte_loop d fuel (4 - Z.of_nat m) st
              = (Err ErrDeviceTimeout, reads_done m st)).
    { induction m as [|m IH]; intros fuel st Hm Hf He;
        (destruct fuel as [|fuel]; [lia|]).
      - cbn [recvByte_loop recvNonZero_loop].
    change (4 - Z.of_nat 0 >? numAttempts) with true. cbv iota.
    unfold failM, reads_done. rewrite Nat.add_0_r. now destruct st.
      - cbn [recvByte_loop].
        destruct (Z.gtb_spec (4 - Z.of_nat (S m)) numAttempts) as [Hgt|_];
          [unfold numAttempts in Hgt; lia|].
        unfold bindM, port_Read. specialize (He 0%nat ltac:(lia)) as He0.
        rewrite Nat.add_0_r in He0.
        destruct (Read d (nread st)) as [c|n b0]; [discriminate|].
        cbn [is_empty] in He0. rewrite He0.
        replace (4 - Z.of_nat (S m) + 1) with (4 - Z.of_nat m) by lia.
        rewrite IH; [unfold reads_done; cbn [nread wlog nlog]; do 2 f_equal; lia|lia|lia|].
        intros i Hi. cbn [nread].
        replace (S (nread st) + i)%nat with (nread st + S i)%nat by lia.
        apply He. lia. }
    intros fuel Hf st Hempty. apply (Hgen 4%nat); try lia.
    intros i Hi. apply Hempty. lia.
Qed.

Lemma recvByte_first_byte_witness :
  recvByte (script_port [ReadLen 0 0; ReadLen 0 0; ReadLen 1 0x00]) 3 init
  = (Ok 0x00, mkState 3 [] 0).
Proof.
  apply (recvByte_first_byte _ 3 init 2 0x00); try lia; try reflexivity.
  intros i Hi. destruct i as [|[|i]]; [reflexivity|reflexivity|lia].
Defined.

(* ------------------------------------------------------------------ *)
(** ** Outcomes of the packet layer *)

Section Outcomes.

Variable d : Port.
Variable fuel : nat.

Lemma SendPacket_loop_outcome (pkt : list Z) (left : nat) :
  forall st,
    match fst (SendPacket_loop d fuel pkt left st) with
    | Ok _ | OutOfFuel => True
    | Err e => e = ErrSerial \/ e = ErrDevice \/ exists c, e = ErrIO c
    | Panic => False
    end.
Proof.
  induction left as [|left IH]; intros st.
  - cbn. right. now left.
  - rewrite SendPacket_loop_S.
    destruct (Write d (length (wlog st)) pkt) as [c|n].
    + cbn. right. right. now exists c.
    + destruct (negb (n =? len pkt)); [cbn; now left|].
      pose proof (recvNonZero_loop_result d fuel 0 (after_write st pkt)) as Hr.
      unfold recvAck, recvNonZero.
      destruct (recvNonZero_loop d fuel 0 (after_write st pkt)) as [[ack|e| |] st1];
        cbn [fst] in Hr |- *; try exact I; try contradiction.
      * destruct (ack =? CC_ACK); [exact I | apply IH].
      * destruct Hr as [->|[->|[c ->]]]; [apply IH | cbn; now left |].
        cbn. right. right. now exists c.
Qed.

Lemma RecvPacket_loop_never_panics (left : nat) :
  (forall st, fst (recvFrame d fuel st) <> Panic) ->
  forall st, fst (RecvPacket_loop d fuel left st) <> Panic.
Proof.
  intros Hframe. induction left as [|left IH]; intros st; [discriminate|].
  cbn [RecvPacket_loop]. unfold bindM at 1. specialize (Hframe st).
  destruct (recvFrame d fuel st) as [[pkt|e| |] st1]; cbn [fst] in *;
    try discriminate; try contradiction.
  destruct (decodePacket_total pkt) as [E|E]; rewrite E; unfold bindM; rewrite sendAck_eq.
  - destruct (Write d (length (wlog st1)) [CC_NACK]) as [c|n]; [discriminate|].
    destruct (negb (n =? 1)); [discriminate | apply IH].
  - destruct (Write d (length (wlog st1)) [CC_ACK]) as [c|n]; [discriminate|].
    destruct (negb (n =? 1)); discriminate.
Qed.

End Outcomes.

(** X12: [SendPacket] never panics, and when it fails it fails with
    [ErrSerial], [ErrDevice] or the transport's own error: a timeout of the
    acknowledgment read is never handed to the caller. *)
Theorem SendPacket_outcomes (d : Port) (fuel : nat) (pkt : list Z) (st : State) :
  fst (SendPacket d fuel pkt st) <> Panic
  /\ (forall e, fst (SendPacket d fuel pkt st) = Err e ->
        e = ErrSerial \/ e = ErrDevice \/ exists c, e = ErrIO c)
  /\ fst (SendPacket d fuel pkt st) <> Err ErrDeviceTimeout.
Proof.
  pose proof (SendPacket_loop_outcome d fuel pkt 3 st) as H.
  unfold SendPacket. change (Z.to_nat numAttempts) with 3%nat.
  destruct (fst (SendPacket_loop d fuel pkt 3 st)) as [u|e| |];
    try contradiction; (split; [discriminate|]); (split; [|try discriminate]).
  - discriminate.
  - intros e' He. injection He as <-. exact H.
  - intros He. injection He as ->. destruct H as [H|[H|[c H]]]; discriminate.
  - discriminate.
Qed.

Lemma SendPacket_outcomes_witness :
  fst (SendPacket (bytes_port []) 5 [3; 0x20; 0x20] init) = Err ErrDevice
  /\ (ErrDevice = ErrSerial \/ ErrDevice = ErrDevice \/ exists c, ErrDevice = ErrIO c).
Proof.
  split; [reflexivity|].
  apply (SendPacket_outcomes (bytes_port []) 5 [3; 0x20; 0x20] init). reflexivity.
Defined.

(** X13: on a silent device [SendPacket] writes the frame three times,
    waits four reads each time, and fails with [ErrDevice]. *)
Theorem SendPacket_silent (d : Port) (fuel : nat) (pkt : list Z) (st : State) :
  silent d -> writes_ok d pkt -> (5 <= fuel)%nat ->
  SendPacket d fuel pkt st
  = (Err ErrDevice, mkState (nread st + 12) (wlog st ++ [pkt; pkt; pkt]) (nlog st)).
Proof.
  intros Hs Hw Hf. unfold SendPacket. change (Z.to_nat numAttempts) with 3%nat.
  assert (Hack : forall st0, recvAck d fuel st0 = (Err ErrDeviceTimeout, reads_done 4 st0)).
  { intros st0. unfold recvAck, recvNonZero.
    apply (recvNonZero_loop_silent d 4 Hs fuel st0); lia. }
  do 3 (rewrite SendPacket_loop_S, Hw, Z.eqb_refl, Hack; cbn [negb]).
  cbn. unfold reads_done, after_write. cbn [nread wlog nlog].
  rewrite <- !app_assoc. do 2 f_equal. lia.
Qed.

Lemma SendPacket_silent_witness :
  SendPacket (bytes_port []) 5 [3; 0x20; 0x20] init
  = (Err ErrDevice, mkState 12 [[3; 0x20; 0x20]; [3; 0x20; 0x20]; [3; 0x20; 0x20]] 0).
Proof.
  apply (SendPacket_silent (bytes_port []) 5 [3; 0x20; 0x20] init); [| |lia].
  - intros k. unfold bytes_port, script_port. cbn [Read map]. now destruct k.
  - intros k. reflexivity.
Defined.

(** X14: when [RecvPacket] fails, the error is [ErrDeviceTimeout],
    [ErrSerial], [ErrDevice] or the transport's own: [ErrBadPacket] is
    never handed to the caller, a malformed frame costs an attempt. *)
Theorem RecvPacket_outcomes (d : Port) (fuel : nat) (st : State) (e : error) :
  fst (RecvPacket d fuel st) = Err e ->
  (e = ErrDeviceTimeout \/ e = ErrSerial \/ e = ErrDevice \/ exists c, e = ErrIO c)
  /\ e <> ErrBadPacket.
Proof.
  intros H. apply RecvPacket_loop_errors in H.
  destruct H as [[->|[->|[c ->]]]| ->]; (split; [|discriminate]); auto.
  right. right. right. now exists c.
Qed.

Lemma RecvPacket_outcomes_witness :
  fst (RecvPacket (bytes_port [0x05; 0x00; 0x28; 0x00; 0x00]) 5 init) = Err ErrDeviceTimeout
  /\ ErrDeviceTimeout <> ErrBadPacket.
Proof.
  split; [reflexivity|].
  apply (RecvPacket_outcomes (bytes_port [0x05; 0x00; 0x28; 0x00; 0x00]) 5 init).
  reflexivity.
Defined.

(** X15: on a silent device [RecvPacket] gives up with [ErrDeviceTimeout]
    after four reads, without writing anything: a failed read ends the
    receive, it is not retried. *)
Theorem RecvPacket_silent (d : Port) (fuel : nat) (st : State) :
  silent d -> (5 <= fuel)%nat ->
  RecvPacket d fuel st = (Err ErrDeviceTimeout, reads_done 4 st).
Proof.
  intros Hs Hf. unfold RecvPacket. change (Z.to_nat numAttempts) with 3%nat.
  cbn [RecvPacket_loop]. unfold bindM at 1. unfold recvFrame, bindM at 1.
  pose proof (recvNonZero_loop_silent d 4 Hs fuel st ltac:(lia) ltac:(lia)) as H.
  change (4 - Z.of_nat 4) with 0 in H. unfold recvNonZero. now rewrite H.
Qed.

Lemma RecvPacket_silent_witness :
  RecvPacket (bytes_port []) 5 init = (Err ErrDeviceTimeout, mkState 4 [] 0).
Proof.
  apply (RecvPacket_silent (bytes_port []) 5 init); [|lia].
  intros k. unfold bytes_port, script_port. cbn [Read map]. now destruct k.
Defined.

(* ------------------------------------------------------------------ *)
(** ** The receive buffer *)

Lemma post_bind {A B : Type} (m : M A) (k : A -> M B) (Q : A -> Prop) (R : B -> Prop) :
  post m Q -> (forall a, Q a -> post (k a) R) -> post (bindM m k) R.
Proof.
  intros Hm Hk st. unfold bindM. specialize (Hm st).
  destruct (m st) as [[a|e| |] st1]; cbn [fst] in *; try exact I; try contradiction.
  now apply Hk.
Qed.

Lemma post_retM {A : Type} (a : A) (Q : A -> Prop) : Q a -> post (retM a) Q.
Proof. intros H st. exact H. Qed.

Lemma post_store (l : list Z) (i : nat) (b : Z) (Q : list Z -> Prop) :
  (i < length l)%nat -> Q (<[i:=b]> l) -> post (liftR (store l i b)) Q.
Proof.
  intros Hi HQ st. unfold liftR, store. cbn [fst].
  destruct (Nat.ltb_spec i (length l)); [exact HQ | lia].
Qed.

Section Buffer.

Variable d : Port.
Variable fuel : nat.
Hypothesis bytes_ok : port_bytes_ok d.

Lemma recvNonZero_loop_post (f : nat) :
  forall attempts, post (recvNonZero_loop d f attempts) (fun b => is_byte b /\ b <> 0).
Proof.
  induction f as [|f IH]; intros attempts st; cbn [recvNonZero_loop]; [exact I|].
  destruct (attempts >? numAttempts); [exact I|].
  unfold bindM, port_Read.
  destruct (Read d (nread st)) as [c|n b] eqn:E; [exact I|].
  destruct (n =? 0); [apply IH|].
  destruct (n =? 1); [|exact I].
  destruct (Z.eqb_spec b 0); [apply IH|].
  cbn. split; [now apply (bytes_ok _ _ _ E) | assumption].
Qed.

Lemma recvByte_loop_post (f : nat) :
  forall attempts, post (recvByte_loop d f attempts) is_byte.
Proof.
  induction f as [|f IH]; intros attempts st; cbn [recvByte_loop]; [exact I|].
  destruct (attempts >? numAttempts); [exact I|].
  unfold bindM, port_Read.
  destruct (Read d (nread st)) as [c|n b] eqn:E; [exact I|].
  destruct (n =? 0); [apply IH|].
  destruct (n =? 1); [|exact I].
  cbn. now apply (bytes_ok _ _ _ E).
Qed.

(** The loop that fills the frame stays inside the buffer. *)
Lemma recvRest_post (todo : nat) :
  forall count pkt,
    (count + todo = length pkt)%nat -> Forall is_byte pkt ->
    post (recvRest d fuel todo count pkt)
         (fun p => length p = length pkt /\ Forall is_byte p).
Proof.
  induction todo as [|todo IH]; intros count pkt Hc Hall; cbn [recvRest].
  - apply post_retM. now split.
  - apply post_bind with (Q := is_byte); [apply recvByte_loop_post|].
    intros b Hb.
    apply post_bind with (Q := fun p => p = <[count:=b]> pkt).
    + apply post_store; [lia | reflexivity].
    + intros p ->.
      assert (Hl : length (<[count:=b]> pkt) = length pkt) by apply length_insert.
      intros st. specialize (IH (S count) (<[count:=b]> pkt)).
      rewrite Hl in IH. apply IH; [lia|].
      apply Forall_insert; assumption.
Qed.

Lemma recvFrame_post :
  post (recvFrame d fuel) (fun p => 1 <= len p <= 255 /\ Forall is_byte p).
Proof.
  unfold recvFrame.
  apply post_bind with (Q := fun b => is_byte b /\ b <> 0);
    [apply recvNonZero_loop_post|].
  intros size [Hb Hnz]. unfold is_byte in Hb.
  assert (Hlen : length (make size) = Z.to_nat size).
  { unfold make. apply length_replicate. }
  apply post_bind with (Q := fun p => p = <[0%nat:=size]> (make size)).
  - apply post_store; [lia | reflexivity].
  - intros p ->.
    assert (Hl : length (<[0%nat:=size]> (make size)) = Z.to_nat size).
    { now rewrite length_insert. }
    intros st.
    pose proof (recvRest_post (Z.to_nat (size - 1)) 1 (<[0%nat:=size]> (make size))) as H.
    rewrite Hl in H. specialize (H ltac:(lia)).
    assert (Hall : Forall is_byte (<[0%nat:=size]> (make size))).
    { apply Forall_insert; [|unfold is_byte; lia].
      unfold make. apply Forall_replicate. unfold is_byte. lia. }
    specialize (H Hall st).
    destruct (fst (recvRest d fuel (Z.to_nat (size - 1)) 1 (<[0%nat:=size]> (make size)) st));
      try exact H.
    destruct H as [H1 H2]. split; [|exact H2]. unfold len. rewrite H1. lia.
Qed.

End Buffer.

Lemma bytes_port_ok (bs : list Z) : Forall is_byte bs -> port_bytes_ok (bytes_port bs).
Proof.
  intros Hall k n b. unfold bytes_port, script_port. cbn [Read].
  destruct (nth_in_or_default k (map (ReadLen 1) bs) (ReadLen 0 0)) as [Hin|Hdef];
    [|rewrite Hdef].
  - intros E. rewrite E in Hin. apply in_map_iff in Hin as (x & Hx & Hin).
    injection Hx as _ <-. rewrite Forall_forall in Hall. apply Hall.
    now apply list_elem_of_In.
  - intros E. injection E as _ <-. unfold is_byte. lia.
Qed.

(** X16: when every byte the transport delivers is a byte, [RecvPacket]
    never panics (the frame buffer is as long as its size byte says and
    the loop that fills it stays inside), and a payload it returns holds
    between 1 and 253 bytes. *)
Theorem RecvPacket_buffer_safe (d : Port) (fuel : nat) (st : State) :
  port_bytes_ok d ->
  fst (RecvPacket d fuel st) <> Panic
  /\ (forall data st', RecvPacket d fuel st = (Ok data, st') ->
        1 <= len data <= 253 /\ Forall is_byte data).
Proof.
  intros Hok. split.
  - apply RecvPacket_loop_never_panics. intros st0 HP.
    pose proof (recvFrame_post d fuel Hok st0) as H. now rewrite HP in H.
  - intros data st' H.
    apply (RecvPacket_loop_Ok d fuel 3) in H as (k & st1 & _ & _ & Hg).
    destruct Hg as (pkt & st2 & Hf & Hd & _).
    pose proof (recvFrame_post d fuel Hok st1) as Hp. rewrite Hf in Hp.
    cbn [fst] in Hp. destruct Hp as [Hlen Hall].
    destruct (Z_lt_ge_dec (len pkt) 3) as [Hlt|Hge].
    + unfold decodePacket in Hd. destruct (Z.ltb_spec (len pkt) 3); [discriminate|lia].
    + destruct (decodePacket_total pkt) as [E|E]; rewrite E in Hd; [discriminate|].
      injection Hd as <-. split; [|now apply Forall_drop].
      unfold len in *. rewrite length_drop. lia.
Qed.

Lemma RecvPacket_buffer_safe_witness :
  fst (RecvPacket (bytes_port [0xFF; 0x01; 0x02]) 5 init) <> Panic.
Proof.
  apply (RecvPacket_buffer_safe (bytes_port [0xFF; 0x01; 0x02]) 5 init).
  apply bytes_port_ok. repeat (constructor; [unfold is_byte; lia|]). constructor.
Defined.

(* ------------------------------------------------------------------ *)
(** ** A frame on the wire *)

Section Wire.

Variable d : Port.

Lemma delivers_app (st : State) (a b : list Z) :
  delivers d st (a ++ b) ->
  delivers d st a /\ delivers d (reads_done (length a) st) b.
Proof.
  intros H. split.
  - intros i x Hx. apply H. now apply lookup_app_l_Some.
  - intros i x Hx. cbn [reads_done nread]. rewrite <- Nat.add_assoc. apply H.
    rewrite lookup_app_r by lia. now replace (length a + i - length a)%nat with i by lia.
Qed.

Lemma reads_done_add (m n : nat) (st : State) :
  reads_done n (reads_done m st) = reads_done (m + n) st.
Proof. unfold reads_done. cbn [nread wlog nlog]. f_equal. lia. Qed.

Lemma recvNonZero_loop_skips_padding (m : nat) :
  forall fuel attempts st b rest,
    attempts <= numAttempts -> b <> 0 -> (m < fuel)%nat ->
    delivers d st (replicate m 0 ++ b :: rest) ->
    recvNonZero_loop d fuel attempts st = (Ok b, reads_done (S m) st).
Proof.
  induction m as [|m IH]; intros fuel attempts st b rest Ha Hb Hf Hd;
    (destruct fuel as [|fuel]; [lia|]).
  - cbn [recvNonZero_loop].
    destruct (Z.gtb_spec attempts numAttempts); [lia|].
    unfold bindM, port_Read.
    specialize (Hd 0%nat b eq_refl). rewrite Nat.add_0_r in Hd. rewrite Hd.
    cbn [Z.eqb Pos.eqb]. destruct (Z.eqb_spec b 0); [contradiction|].
    unfold retM, reads_done. do 2 f_equal. lia.
  - rewrite recvNonZero_loop_padding; [|exact Ha|].
    + rewrite (IH fuel attempts (read_done st) b rest); try assumption; try lia.
      * unfold reads_done, read_done. cbn [nread wlog nlog]. do 2 f_equal. lia.
      * intros i x Hx. cbn [read_done nread].
        replace (S (nread st) + i)%nat with (nread st + S i)%nat by lia.
        apply Hd. exact Hx.
    + specialize (Hd 0%nat 0 eq_refl). rewrite Nat.add_0_r in Hd. now rewrite Hd.
Qed.

Lemma recvRest_fills (fuel : nat) (tail : list Z) :
  (1 <= fuel)%nat ->
  forall pre fill st,
    length fill = length tail ->
    delivers d st tail ->
    recvRest d fuel (length tail) (length pre) (pre ++ fill) st
    = (Ok (pre ++ tail), reads_done (length tail) st).
Proof.
  intros Hf. induction tail as [|b tail IH]; intros pre fill st Hl Hd.
  - destruct fill; [|discriminate Hl]. cbn. unfold reads_done.
    rewrite Nat.add_0_r. now destruct st.
  - destruct fill as [|f0 fill]; [discriminate Hl|]. cbn [length recvRest].
    unfold bindM at 1. unfold recvByte.
    rewrite (recvByte_loop_after_empties d 0 fuel 0 st b);
      [|lia | unfold numAttempts; lia | lia | intros i Hi; lia
       |apply (Hd 0%nat b eq_refl)].
    unfold bindM, liftR, store. rewrite length_app. cbn [length].
    destruct (Nat.ltb_spec (length pre) (length pre + S (length fill))); [|lia].
    replace (<[length pre:=b]> (pre ++ f0 :: fill)) with ((pre ++ [b]) ++ fill).
    2:{ rewrite insert_app_r_alt by lia. rewrite Nat.sub_diag. cbn.
        now rewrite <- app_assoc. }
    replace (S (length pre)) with (length (pre ++ [b]))
      by (rewrite length_app; cbn [length]; lia).
    rewrite IH.
    + rewrite <- app_assoc. cbn [app]. now rewrite reads_done_add.
    + now injection Hl.
    + apply (delivers_app st [b] tail Hd).
Qed.

End Wire.

(** The frame of a payload, read back from the wire behind [m] zero bytes. *)
Lemma RecvPacket_reads_frame
    (d : Port) (fuel : nat) (st : State) (m : nat) (P : list Z) :
  1 <= len P <= 253 ->
  delivers d st (replicate m 0x00 ++ encodePacket P) ->
  Write d (length (wlog st)) [CC_ACK] = WriteLen 1 ->
  (m < fuel)%nat ->
  RecvPacket d fuel st
  = (Ok P, mkState (nread st + m + length P + 2) (wlog st ++ [[CC_ACK]]) (nlog st)).
Proof.
  intros HP Hd Hw Hf. rewrite encodePacket_eq in Hd.
  set (size := encodeSize (2 + len P)) in *.
  assert (Hsize : size = 2 + len P).
  { unfold size. rewrite encodeSize_mod. apply Z.mod_small. lia. }
  assert (Hframe : recvFrame d fuel st
            = (Ok (size :: checksum P :: P), reads_done (m + length P + 2) st)).
  { unfold recvFrame. unfold bindM at 1. unfold recvNonZero.
    rewrite (recvNonZero_loop_skips_padding d m fuel 0 st size (checksum P :: P));
      [|unfold numAttempts; lia|lia|exact Hf|exact Hd].
    unfold bindM at 1.
    assert (Hmake : make size = 0 :: make (Z.of_nat (S (length P)))).
    { rewrite Hsize. unfold len.
      replace (2 + Z.of_nat (length P)) with (Z.of_nat (S (S (length P)))) by lia.
      apply make_succ. }
    rewrite Hmake. unfold liftR, store. cbn [length Nat.ltb Nat.leb list_insert insert].
    replace (Z.to_nat (size - 1)) with (length (checksum P :: P))
      by (cbn [length]; unfold len in Hsize; lia).
    apply delivers_app in Hd as [_ Hd].
    apply (delivers_app d _ [size] (checksum P :: P)) in Hd as [_ Hd].
    rewrite length_replicate, reads_done_add in Hd.
    replace (m + length [size])%nat with (S m) in Hd by (cbn [length]; lia).
    etransitivity;
      [exact (recvRest_fills d fuel (checksum P :: P) ltac:(lia) [size]
                (make (Z.of_nat (S (length P)))) _ (length_make _) Hd)|].
    rewrite reads_done_add. cbn [app length]. do 2 f_equal. lia. }
  unfold RecvPacket. change (Z.to_nat numAttempts) with 3%nat.
  cbn [RecvPacket_loop]. unfold bindM at 1. rewrite Hframe.
  unfold size. rewrite <- encodePacket_eq, decodePacket_encodePacket by lia.
  unfold bindM. rewrite sendAck_eq. cbn [reads_done wlog]. rewrite Hw.
  cbn [Z.eqb Pos.eqb negb]. unfold retM, after_write, reads_done.
  cbn [nread wlog nlog]. do 2 f_equal. lia.
Qed.

(** X17: what [encodePacket] produces, [RecvPacket] takes back: when the
    device sends any number of zero bytes and then the frame of a payload
    of 1 to 253 bytes, [RecvPacket] returns that payload, having read the
    padding and the frame and written a single [ACK]. *)
Theorem RecvPacket_takes_encodePacket
    (d : Port) (fuel : nat) (st : State) (m : nat) (P : list Z) :
  1 <= len P <= 253 ->
  delivers d st (replicate m 0x00 ++ encodePacket P) ->
  Write d (length (wlog st)) [CC_ACK] = WriteLen 1 ->
  (m < fuel)%nat ->
  RecvPacket d fuel st
  = (Ok P, mkState (nread st + m + length P + 2) (wlog st ++ [[CC_ACK]]) (nlog st)).
Proof. apply RecvPacket_reads_frame. Qed.

Lemma RecvPacket_takes_encodePacket_witness :
  RecvPacket (bytes_port ([0x00; 0x00] ++ encodePacket [0x40])) 3 init
  = (Ok [0x40], mkState 5 [[0xCC]] 0).
Proof.
  apply (RecvPacket_takes_encodePacket _ 3 init 2 [0x40]); try reflexivity; try lia.
  - vm_compute. split; discriminate.
  - intros i b Hb. do 5 (destruct i as [|i]; [injection Hb as <-; reflexivity|]).
    discriminate Hb.
Defined.

(* ------------------------------------------------------------------ *)
(** ** Sync *)

Section Synchronize.

Variable d : BufPort.

(** One turn of the loop of [Sync]. *)
Lemma Sync_loop_S (left : nat) (st : State) :
  Sync_loop d (S left) st =
    let st1 := after_write st CC_SYNC in
    match Write (port d) (length (wlog st)) CC_SYNC with
    | WriteErr c => (Err (ErrIO c), st1)
    | WriteLen n =>
      if negb (n =? 2) then (Err ErrSerial, st1)
      else
        match ReadBuf d (nread st) with
        | ReadBufErr c => (Err (ErrIO c), read_done st1)
        | ReadBufLen _ _ =>
          if sync_answer d (nread st) then (Ok tt, read_done st1)
          else Sync_loop d left (read_done st1)
        end
    end.
Proof.
  cbn [Sync_loop]. unfold bindM, port_Write, after_write, failM. cbv zeta.
  destruct (Write (port d) (length (wlog st)) CC_SYNC) as [c|n]; [reflexivity|].
  change (len CC_SYNC) with 2.
  destruct (negb (n =? 2)); [reflexivity|]. cbn [nread].
  unfold sync_answer.
  destruct (ReadBuf d (nread st)) as [c|n' data]; [reflexivity|].
  destruct (n' =? 2); cbn [negb andb]; [|reflexivity].
  destruct data as [|b0 [|b1 rest]].
  - reflexivity.
  - change (make 100) with (0 :: 0 :: make 98). unfold copy_at.
    cbn [take firstn length Nat.sub Nat.add drop skipn app index lookup list_lookup].
    change (0 =? CC_ACK) with false. now rewrite andb_false_r.
  - change (make 100) with (0 :: 0 :: make 98). unfold copy_at.
    cbn [take firstn length Nat.sub Nat.add drop skipn app index lookup list_lookup].
    reflexivity.
Qed.

Lemma Sync_loop_outcome (left : nat) :
  forall st,
    let r := Sync_loop d left st in
    exists k, (k <= left)%nat /\ (0 < left -> 1 <= k)%nat
      /\ wlog (snd r) = wlog st ++ replicate k CC_SYNC
      /\ (nread st <= nread (snd r) <= nread st + k)%nat
      /\ match fst r with
         | Ok _ => True
         | Err e => e = ErrSerial \/ e = ErrDevice \/ exists c, e = ErrIO c
         | Panic | OutOfFuel => False
         end.
Proof.
  induction left as [|left IH]; intros st; cbv zeta.
  - exists 0%nat. cbn. rewrite app_nil_r. repeat split; try lia. right. now left.
  - rewrite Sync_loop_S. cbv zeta.
    assert (Hone : forall r : result unit,
              match r with
              | Ok _ => True
              | Err e => e = ErrSerial \/ e = ErrDevice \/ exists c, e = ErrIO c
              | Panic | OutOfFuel => False
              end ->
              forall st1, wlog st1 = wlog st ++ [CC_SYNC] ->
                (nread st <= nread st1 <= nread st + 1)%nat ->
              exists k, (k <= S left)%nat /\ (0 < S left -> 1 <= k)%nat
                /\ wlog (snd (r, st1)) = wlog st ++ replicate k CC_SYNC
                /\ (nread st <= nread (snd (r, st1)) <= nread st + k)%nat
                /\ match fst (r, st1) with
                   | Ok _ => True
                   | Err e => e = ErrSerial \/ e = ErrDevice \/ exists c, e = ErrIO c
                   | Panic | OutOfFuel => False
                   end).
    { intros r Hr st1 Hw Hn. exists 1%nat. cbn [fst snd replicate].
      repeat split; try lia; assumption. }
    destruct (Write (port d) (length (wlog st)) CC_SYNC) as [c|n].
    + apply Hone; [right; right; now exists c | reflexivity | cbn; lia].
    + destruct (negb (n =? 2)); [apply Hone; [now left | reflexivity | cbn; lia]|].
      destruct (ReadBuf d (nread st)) as [c|n' data].
      * apply Hone; [right; right; now exists c | reflexivity | cbn; lia].
      * destruct (sync_answer d (nread st)); [apply Hone; [exact I|reflexivity|cbn; lia]|].
        destruct (IH (read_done (after_write st CC_SYNC))) as (k & Hk & _ & Hw & Hn & Hr).
        exists (S k). cbn [read_done after_write nread wlog] in Hw, Hn.
        split; [lia|]. split; [lia|]. split; [|split; [lia|exact Hr]].
        rewrite Hw. now rewrite <- app_assoc.
Qed.

Lemma Sync_loop_unanswered (left : nat) :
  forall st,
    (forall k, Write (port d) k CC_SYNC = WriteLen 2) ->
    (forall j, (j < left)%nat ->
       sync_read_ok d (nread st + j) /\ sync_answer d (nread st + j) = false) ->
    Sync_loop d left st
    = (Err ErrDevice,
       mkState (nread st + left) (wlog st ++ replicate left CC_SYNC) (nlog st)).
Proof.
  induction left as [|left IH]; intros st Hw Hno.
  - cbn. rewrite Nat.add_0_r, app_nil_r. now destruct st.
  - rewrite Sync_loop_S. cbv zeta. rewrite Hw. cbn [Z.eqb Pos.eqb negb].
    destruct (Hno 0%nat ltac:(lia)) as [(n & data & Hr) Ha].
    rewrite Nat.add_0_r in Hr, Ha. rewrite Hr, Ha.
    rewrite IH; [|exact Hw|].
    + unfold read_done, after_write. cbn [nread wlog nlog replicate].
      rewrite <- app_assoc. do 2 f_equal. lia.
    + intros j Hj. cbn [read_done after_write nread].
      replace (S (nread st) + j)%nat with (nread st + S j)%nat by lia.
      apply Hno. lia.
Qed.

Lemma Sync_loop_answered (i : nat) :
  forall left st,
    (i < left)%nat ->
    (forall k, Write (port d) k CC_SYNC = WriteLen 2) ->
    (forall j, (j < i)%nat ->
       sync_read_ok d (nread st + j) /\ sync_answer d (nread st + j) = false) ->
    sync_answer d (nread st + i) = true ->
    Sync_loop d left st
    = (Ok tt, mkState (nread st + S i) (wlog st ++ replicate (S i) CC_SYNC) (nlog st)).
Proof.
  induction i as [|i IH]; intros left st Hl Hw Hno Hyes;
    (destruct left as [|left]; [lia|]); rewrite Sync_loop_S; cbv zeta;
    rewrite Hw; cbn [Z.eqb Pos.eqb negb].
  - rewrite Nat.add_0_r in Hyes. rewrite Hyes.
    assert (Hr : exists n data, ReadBuf d (nread st) = ReadBufLen n data).
    { unfold sync_answer in Hyes. destruct (ReadBuf d (nread st)) as [c|n data];
        [discriminate | now exists n, data]. }
    destruct Hr as (n & data & ->).
    unfold read_done, after_write. cbn [nread wlog nlog replicate]. do 2 f_equal. lia.
  - destruct (Hno 0%nat ltac:(lia)) as [(n & data & Hr) Ha].
    rewrite Nat.add_0_r in Hr, Ha. rewrite Hr, Ha.
    rewrite (IH left); [|lia|exact Hw| |].
    + unfold read_done, after_write. cbn [nread wlog nlog replicate].
      rewrite <- app_assoc. do 2 f_equal. lia.
    + intros j Hj. cbn [read_done after_write nread].
      replace (S (nread st) + j)%nat with (nread st + S j)%nat by lia.
      apply Hno. lia.
    + cbn [read_done after_write nread].
      now replace (S (nread st) + i)%nat with (nread st + S i)%nat by lia.
Qed.

End Synchronize.

(** X18: [Sync] writes the two sync bytes once per attempt and nothing
    else, makes one to three attempts with at most one read each, never
    panics, and fails only with [ErrSerial], [ErrDevice] or the
    transport's own error. *)
Theorem Sync_outcomes (d : BufPort) (st : State) :
  let r := Sync d st in
  exists k, (1 <= k <= 3)%nat
    /\ wlog (snd r) = wlog st ++ replicate k [0x55; 0x55]
    /\ (nread st <= nread (snd r) <= nread st + k)%nat
    /\ fst r <> Panic /\ fst r <> OutOfFuel
    /\ (forall e, fst r = Err e ->
          e = ErrSerial \/ e = ErrDevice \/ exists c, e = ErrIO c).
Proof.
  cbv zeta. unfold Sync. change (Z.to_nat numAttempts) with 3%nat.
  destruct (Sync_loop_outcome d 3 st) as (k & Hk & Hpos & Hw & Hn & Hr).
  exists k. split; [lia|]. split; [exact Hw|]. split; [exact Hn|].
  destruct (fst (Sync_loop d 3 st)) as [u|e| |]; try contradiction;
    repeat split; try discriminate.
  intros e' He. injection He as <-. exact Hr.
Qed.

(** X19: with a transport that takes the sync bytes and answers each read
    without error, [Sync] is decided by the first of its three reads that
    delivers exactly two bytes, [0x00] and [0xCC]: it succeeds with as many
    writes and reads as that attempt's rank; if none of the three does, it
    fails with [ErrDevice] after three writes and three reads. *)
Theorem Sync_first_answer (d : BufPort) (st : State) (i : nat) :
  (forall k, Write (port d) k CC_SYNC = WriteLen 2) ->
  (forall j, (j < i)%nat ->
     sync_read_ok d (nread st + j) /\ sync_answer d (nread st + j) = false) ->
  ((i < 3)%nat -> sync_answer d (nread st + i) = true ->
     Sync d st
     = (Ok tt, mkState (nread st + S i) (wlog st ++ replicate (S i) CC_SYNC) (nlog st)))
  /\ ((3 <= i)%nat ->
     Sync d st
     = (Err ErrDevice, mkState (nread st + 3) (wlog st ++ replicate 3 CC_SYNC) (nlog st))).
Proof.
  intros Hw Hno. unfold Sync. change (Z.to_nat numAttempts) with 3%nat. split.
  - intros Hi Hyes. now apply Sync_loop_answered.
  - intros Hi. apply Sync_loop_unanswered; [exact Hw|].
    intros j Hj. apply Hno. lia.
Qed.

Lemma Sync_first_answer_witness :
  let d := mkBufPort (bytes_port [])
             (fun k => if (k =? 0)%nat then ReadBufLen 1 [0xCC] else ReadBufLen 2 [0x00; 0xCC]) in
  Sync d init = (Ok tt, mkState 2 [[0x55; 0x55]; [0x55; 0x55]] 0).
Proof.
  intros d. apply (Sync_first_answer d init 1); try reflexivity; try lia.
  intros j Hj. assert (j = 0%nat) as -> by lia.
  split; [now exists 1, [0xCC] | reflexivity].
Defined.

(* ------------------------------------------------------------------ *)
(** ** More on the commands *)

Lemma encodeCmdPacket_eq (cmd : Z) (parameters : list Z) :
  encodeCmdPacket cmd parameters
  = encodeSize (3 + len parameters) :: checksum (to_byte cmd :: parameters)
      :: to_byte cmd :: parameters.
Proof.
  unfold encodeCmdPacket. rewrite Marshal_eq, encodePacket_eq, len_cons.
  now replace (2 + (1 + len parameters)) with (3 + len parameters) by lia.
Qed.

(** X20: [SendData] refuses more than 252 bytes with [ErrBadArguments]
    before any I/O; what it accepts makes a frame of at most 255 bytes,
    whose size byte is its true length, and that frame is written. *)
Theorem SendData_limit (d : Port) (fuel : nat) (data : list Z) (st : State) :
  let frame := encodeCmdPacket COMMAND_SEND_DATA data in
  (252 < len data -> SendData d fuel data st = (Err ErrBadArguments, st))
  /\ (len data <= 252 ->
      sent_first frame st (SendData d fuel data st)
      /\ len frame <= 255 /\ frame !! 0%nat = Some (len frame)).
Proof.
  intros frame. unfold SendData, SendDataMaxSize. split; intros H.
  - destruct (Z.gtb_spec (len data) (255 - 3)); [reflexivity|lia].
  - destruct (Z.gtb_spec (len data) (255 - 3)); [lia|].
    split; [apply SendPacket_sent_first|].
    unfold frame. rewrite encodeCmdPacket_eq, !len_cons.
    pose proof (len_nonneg data). split; [lia|].
    cbn [lookup list_lookup]. f_equal. rewrite encodeSize_mod.
    rewrite Z.mod_small by lia. lia.
Qed.

Lemma SendData_limit_witness :
  SendData (bytes_port []) 5 (replicate 253 0xAA) init = (Err ErrBadArguments, init)
  /\ encodeCmdPacket COMMAND_SEND_DATA (replicate 252 0xAA) !! 0%nat
     = Some (len (encodeCmdPacket COMMAND_SEND_DATA (replicate 252 0xAA))).
Proof.
  split.
  - apply (SendData_limit (bytes_port []) 5 (replicate 253 0xAA) init).
    vm_compute. reflexivity.
  - apply (SendData_limit (bytes_port []) 5 (replicate 252 0xAA) init).
    vm_compute. discriminate.
Defined.

(** X21: the limits of [MemoryWrite] are the ones that make the frame fit:
    an 8-bit or 32-bit write of at most 255 bytes that is not refused makes
    a frame of at most 255 bytes, whose size byte is its true length. *)
Theorem MemoryWrite_frame_fits
    (d : Port) (fuel : nat) (address typ : Z) (data : list Z) (st : State) :
  typ = ReadWriteType8Bit \/ typ = ReadWriteType32Bit ->
  len data <= 255 ->
  fst (MemoryWrite d fuel address typ data st) <> Err ErrBadArguments ->
  let frame := encodeCmdPacket COMMAND_MEMORY_WRITE ((be32 address ++ [to_byte typ]) ++ data) in
  len frame = 8 + len data /\ len frame <= 255 /\ frame !! 0%nat = Some (len frame).
Proof.
  intros Htyp Hlen Hacc frame.
  pose proof (len_nonneg data) as Hpos.
  assert (Hb : to_byte (len data) = len data) by (apply Z.mod_small; lia).
  assert (Hfit : len data <= 247).
  { unfold MemoryWrite in Hacc. rewrite Hb in Hacc.
    destruct Htyp as [-> | ->].
    - cbn [ReadWriteType8Bit Z.eqb andb] in Hacc.
      destruct (Z.gtb_spec (len data) WriteMaxCount8Bit) as [Hgt|Hle];
        [now contradiction Hacc | unfold WriteMaxCount8Bit in Hle; lia].
    - cbn [ReadWriteType8Bit ReadWriteType32Bit Z.eqb Pos.eqb andb] in Hacc.
      destruct (Z.gtb_spec (len data) WriteMaxCount32Bit) as [Hgt|Hle];
        [now contradiction Hacc | unfold WriteMaxCount32Bit in Hle; lia]. }
  assert (Hparams : len ((be32 address ++ [to_byte typ]) ++ data) = 5 + len data).
  { unfold len. rewrite !length_app. cbn [length be32]. lia. }
  unfold frame. rewrite encodeCmdPacket_eq, !len_cons, Hparams.
  split; [lia|]. split; [lia|].
  cbn [lookup list_lookup]. f_equal. rewrite encodeSize_mod.
  rewrite Z.mod_small by lia. lia.
Qed.

Lemma MemoryWrite_frame_fits_witness :
  len (encodeCmdPacket COMMAND_MEMORY_WRITE
         ((be32 0x20000000 ++ [to_byte ReadWriteType8Bit]) ++ replicate 247 0xAA)) <= 255.
Proof.
  apply (MemoryWrite_frame_fits (bytes_port []) 5 0x20000000 ReadWriteType8Bit
           (replicate 247 0xAA) init).
  - now left.
  - vm_compute. discriminate.
  - vm_compute. discriminate.
Defined.

(** X22: once the GetStatus frame is acknowledged and [RecvPacket] has
    returned the reply payload [data], [GetStatus] returns the single byte
    of [data], and fails with [ErrDevice] when [data] is not exactly one
    byte long. *)
Theorem GetStatus_reply
    (d : Port) (fuel : nat) (st st1 st2 : State) (data : list Z) :
  SendPacket d fuel (encodeCmdPacket COMMAND_GET_STATUS []) st = (Ok tt, st1) ->
  RecvPacket d fuel st1 = (Ok data, st2) ->
  (len data <> 1 -> GetStatus d fuel st = (Err ErrDevice, st2))
  /\ (forall s, data = [s] -> GetStatus d fuel st = (Ok s, st2)).
Proof.
  intros Hs Hr.
  assert (Hrun : GetStatus d fuel st =
            (if negb (len data =? 1) then failM ErrDevice else liftR (index data 0)) st2).
  { unfold GetStatus. unfold bindM at 1. rewrite Hs. unfold bindM at 1. now rewrite Hr. }
  split.
  - intros Hlen. rewrite Hrun.
    destruct (Z.eqb_spec (len data) 1); [contradiction|reflexivity].
  - intros s ->. rewrite Hrun. reflexivity.
Qed.

Lemma GetStatus_reply_witness :
  GetStatus (bytes_port [0xCC; 0x03; 0x40; 0x40]) 1 init
  = (Ok 0x40, mkState 4 [[3; 0x23; 0x23]; [0xCC]] 0).
Proof.
  apply (GetStatus_reply _ 1 init (mkState 1 [[3; 0x23; 0x23]] 0) _ [0x40]);
    reflexivity.
Defined.

(** X23: when every byte the transport delivers is a byte, the commands
    that check their reply, [GetStatus] and [GetChipID], and [MemoryRead],
    which hands the reply on, never panic. *)
Theorem reply_commands_never_panic
    (d : Port) (fuel : nat) (address typ count : Z) (st : State) :
  port_bytes_ok d ->
  fst (GetStatus d fuel st) <> Panic
  /\ fst (GetChipID d fuel st) <> Panic
  /\ fst (MemoryRead d fuel address typ count st) <> Panic.
Proof.
  intros Hok.
  assert (Hsend : forall pkt st0, fst (SendPacket d fuel pkt st0) <> Panic).
  { intros pkt st0 HP. pose proof (SendPacket_loop_outcome d fuel pkt 3 st0) as H.
    unfold SendPacket in HP. change (Z.to_nat numAttempts) with 3%nat in HP.
    now rewrite HP in H. }
  assert (Hrecv : forall st0, fst (RecvPacket d fuel st0) <> Panic).
  { intros st0. apply RecvPacket_loop_never_panics. intros st1 HP.
    pose proof (recvFrame_post d fuel Hok st1) as H. now rewrite HP in H. }
  split; [|split].
  - unfold GetStatus. unfold bindM at 1. specialize (Hsend (encodeCmdPacket COMMAND_GET_STATUS []) st).
    destruct (SendPacket d fuel (encodeCmdPacket COMMAND_GET_STATUS []) st)
      as [[u|e| |] st1]; cbn [fst] in *; try discriminate; try contradiction.
    unfold bindM. specialize (Hrecv st1).
    destruct (RecvPacket d fuel st1) as [[data|e| |] st2]; cbn [fst] in *;
      try discriminate; try contradiction.
    destruct (Z.eqb_spec (len data) 1) as [E|_]; [|discriminate].
    destruct data as [|s [|s' rest]]; try (cbv in E; discriminate E).
    + discriminate.
    + rewrite !len_cons in E. pose proof (len_nonneg rest). lia.
  - unfold GetChipID. unfold bindM at 1.
    specialize (Hsend (encodeCmdPacket COMMAND_GET_CHIP_ID []) st).
    destruct (SendPacket d fuel (encodeCmdPacket COMMAND_GET_CHIP_ID []) st)
      as [[u|e| |] st1]; cbn [fst] in *; try discriminate; try contradiction.
    unfold bindM at 1. specialize (Hrecv st1).
    destruct (RecvPacket d fuel st1) as [[data|e| |] st2]; cbn [fst] in *;
      try discriminate; try contradiction.
    destruct (Z.eqb_spec (len data) 4) as [E|_]; [|discriminate].
    destruct data as [|b0 [|b1 [|b2 [|b3 [|b4 rest]]]]]; try (cbv in E; discriminate E).
    + discriminate.
    + rewrite !len_cons in E. pose proof (len_nonneg rest). lia.
  - unfold MemoryRead.
    destruct ((typ =? ReadWriteType8Bit) && (count >? ReadMaxCount8Bit)); [discriminate|].
    destruct ((typ =? ReadWriteType32Bit) && (count >? ReadMaxCount32Bit)); [discriminate|].
    unfold bindM.
    match goal with |- context [SendPacket d fuel ?p st] => specialize (Hsend p st);
      destruct (SendPacket d fuel p st) as [[u|e| |] st1] end;
      cbn [fst] in *; try discriminate; try contradiction.
    apply Hrecv.
Qed.

Lemma reply_commands_never_panic_witness :
  fst (GetChipID (bytes_port [0xCC; 0x03; 0x40; 0x40]) 1 init) <> Panic.
Proof.
  apply (reply_commands_never_panic (bytes_port [0xCC; 0x03; 0x40; 0x40]) 1 0 0 0 init).
  apply bytes_port_ok. repeat (constructor; [unfold is_byte; lia|]). constructor.
Defined.

(** X24: the frame [Download] writes can be read back: [decodeCmdPacket]
    gives the Download command with eight parameter bytes, of which
    [decodeUint32] turns the first four into the address and the last four
    into the size. *)
Theorem Download_frame_reads_back
    (d : Port) (fuel : nat) (w address size : Z) (st : State) :
  32 <= w -> is_uint32 address -> is_uint32 size ->
  exists frame c,
    sent_first frame st (Download d fuel address size st)
    /\ decodeCmdPacket frame = Ok c
    /\ Type_ c = COMMAND_DOWNLOAD /\ len (Parameters c) = 8
    /\ decodeUint32 w (take 4 (Parameters c)) = Ok address
    /\ decodeUint32 w (drop 4 (Parameters c)) = Ok size.
Proof.
  intros Hw Ha Hs.
  exists (encodeCmdPacket COMMAND_DOWNLOAD (be32 address ++ be32 size)),
         (mkCommand COMMAND_DOWNLOAD (be32 address ++ be32 size)).
  split; [apply SendPacket_sent_first|].
  split; [apply decodeCmdPacket_roundtrip; unfold is_byte, COMMAND_DOWNLOAD; lia|].
  cbn [Type_ Parameters]. split; [reflexivity|]. split; [reflexivity|].
  change (take 4 (be32 address ++ be32 size)) with (be32 address).
  change (drop 4 (be32 address ++ be32 size)) with (be32 size).
  split; now apply decodeUint32_of_be32.
Qed.

Lemma Download_frame_reads_back_witness :
  exists frame c,
    sent_first frame init (Download (bytes_port [0xCC]) 1 0x1000 0x200 init)
    /\ decodeCmdPacket frame = Ok c
    /\ Type_ c = COMMAND_DOWNLOAD /\ len (Parameters c) = 8
    /\ decodeUint32 64 (take 4 (Parameters c)) = Ok 0x1000
    /\ decodeUint32 64 (drop 4 (Parameters c)) = Ok 0x200.
Proof.
  apply (Download_frame_reads_back (bytes_port [0xCC]) 1 64 0x1000 0x200 init);
    unfold is_uint32; lia.
Defined.

(** X25: the frame [CRC32] writes first can be read back in the same way:
    it carries the CRC32 command with twelve parameter bytes, which
    [decodeUint32] turns into the address, the size and the repeat
    count. *)
Theorem CRC32_frame_reads_back
    (d : Port) (fuel : nat) (w address size rcount : Z) (st : State) :
  32 <= w -> is_uint32 address -> is_uint32 size -> is_uint32 rcount ->
  exists frame c,
    sent_first frame st (CRC32 d fuel address size rcount st)
    /\ decodeCmdPacket frame = Ok c
    /\ Type_ c = COMMAND_CRC32 /\ len (Parameters c) = 12
    /\ decodeUint32 w (take 4 (Parameters c)) = Ok address
    /\ decodeUint32 w (take 4 (drop 4 (Parameters c))) = Ok size
    /\ decodeUint32 w (drop 8 (Parameters c)) = Ok rcount.
Proof.
  intros Hw Ha Hs Hr.
  exists (encodeCmdPacket COMMAND_CRC32 (be32 address ++ be32 size ++ be32 rcount)),
         (mkCommand COMMAND_CRC32 (be32 address ++ be32 size ++ be32 rcount)).
  split.
  - unfold CRC32. apply send_then_sent_first. intros _ st1. unfold bindM, liftR, retM.
    pose proof (RecvPacket_not_BadArguments d fuel st1) as Hn.
    destruct (RecvPacket_keeps_writes d fuel st1) as (rest & Hrest).
    destruct (RecvPacket d fuel st1) as [[data|e| |] st2]; cbn [fst snd] in *;
      try (split; [intros H; try discriminate H; injection H as ->; now apply Hn
                  | now exists rest]).
    destruct data as [|b0 [|b1 [|b2 [|b3 tl]]]];
      cbn [index lookup list_lookup fst snd];
      (split; [discriminate | now exists rest]).
  - split; [apply decodeCmdPacket_roundtrip; unfold is_byte, COMMAND_CRC32; lia|].
    cbn [Type_ Parameters]. split; [reflexivity|]. split; [reflexivity|].
    change (take 4 (be32 address ++ be32 size ++ be32 rcount)) with (be32 address).
    change (take 4 (drop 4 (be32 address ++ be32 size ++ be32 rcount))) with (be32 size).
    change (drop 8 (be32 address ++ be32 size ++ be32 rcount)) with (be32 rcount).
    repeat split; now apply decodeUint32_of_be32.
Qed.

Lemma CRC32_frame_reads_back_witness :
  exists frame c,
    sent_first frame init (CRC32 (bytes_port []) 5 0x1000 0x200 1 init)
    /\ decodeCmdPacket frame = Ok c
    /\ Type_ c = COMMAND_CRC32 /\ len (Parameters c) = 12
    /\ decodeUint32 64 (take 4 (Parameters c)) = Ok 0x1000
    /\ decodeUint32 64 (take 4 (drop 4 (Parameters c))) = Ok 0x200
    /\ decodeUint32 64 (drop 8 (Parameters c)) = Ok 1.
Proof.
  apply (CRC32_frame_reads_back (bytes_port []) 5 64 0x1000 0x200 1 init);
    unfold is_uint32; lia.
Defined.

(* ------------------------------------------------------------------ *)
(** ** Whole exchanges *)

Lemma SendPacket_acked (d : Port) (fuel : nat) (pkt : list Z) (st : State) (m : nat) :
  Write d (length (wlog st)) pkt = WriteLen (len pkt) ->
  delivers d st (replicate m 0x00 ++ [CC_ACK]) ->
  (m < fuel)%nat ->
  SendPacket d fuel pkt st
  = (Ok tt, mkState (nread st + S m) (wlog st ++ [pkt]) (nlog st)).
Proof.
  intros Hw Hd Hf. unfold SendPacket. change (Z.to_nat numAttempts) with 3%nat.
  rewrite SendPacket_loop_S, Hw, Z.eqb_refl. cbn [negb].
  unfold recvAck, recvNonZero.
  rewrite (recvNonZero_loop_skips_padding d m fuel 0 (after_write st pkt) CC_ACK []);
    [reflexivity | unfold numAttempts; lia | discriminate | exact Hf | exact Hd].
Qed.

(** X26: the acknowledgment of a frame may be preceded by any number of
    zero bytes: when the frame is written in full and the device then
    sends zeros followed by [0xCC], [SendPacket] succeeds at the first
    attempt, having read the zeros and the acknowledgment. *)
Theorem SendPacket_acked_after_padding
    (d : Port) (fuel : nat) (pkt : list Z) (st : State) (m : nat) :
  Write d (length (wlog st)) pkt = WriteLen (len pkt) ->
  delivers d st (replicate m 0x00 ++ [0xCC]) ->
  (m < fuel)%nat ->
  SendPacket d fuel pkt st
  = (Ok tt, mkState (nread st + S m) (wlog st ++ [pkt]) (nlog st)).
Proof. apply SendPacket_acked. Qed.

Lemma SendPacket_acked_after_padding_witness :
  SendPacket (bytes_port [0x00; 0x00; 0x00; 0xCC]) 4 [3; 0x20; 0x20] init
  = (Ok tt, mkState 4 [[3; 0x20; 0x20]] 0).
Proof.
  apply (SendPacket_acked_after_padding _ 4 [3; 0x20; 0x20] init 3);
    [reflexivity | | lia].
  intros i b Hb. do 4 (destruct i as [|i]; [injection Hb as <-; reflexivity|]).
  discriminate Hb.
Defined.

(** X27: a whole GetChipID exchange: when every write is complete and the
    device answers the command frame with [0xCC] and then with the frame
    of four bytes, [GetChipID] returns the number these bytes spell, most
    significant first, having written its frame once and one [ACK]. *)
Theorem GetChipID_exchange
    (d : Port) (fuel : nat) (st : State) (b0 b1 b2 b3 : Z) :
  is_byte b0 -> is_byte b1 -> is_byte b2 -> is_byte b3 ->
  (forall k buf, Write d k buf = WriteLen (len buf)) ->
  delivers d st ([0xCC] ++ encodePacket [b0; b1; b2; b3]) ->
  (1 <= fuel)%nat ->
  GetChipID d fuel st
  = (Ok (b0 * 2 ^ 24 + b1 * 2 ^ 16 + b2 * 2 ^ 8 + b3),
     mkState (nread st + 7)
       (wlog st ++ [encodeCmdPacket COMMAND_GET_CHIP_ID []; [0xCC]]) (nlog st)).
Proof.
  intros H0 H1 H2 H3 Hw Hd Hf.
  set (frame := encodeCmdPacket COMMAND_GET_CHIP_ID []).
  set (st1 := mkState (nread st + 1) (wlog st ++ [frame]) (nlog st)).
  assert (Hsend : SendPacket d fuel frame st = (Ok tt, st1)).
  { apply (SendPacket_acked d fuel frame st 0); [apply Hw | | lia].
    now apply (delivers_app d st [0xCC]) in Hd as [Hd _]. }
  assert (Hrecv : RecvPacket d fuel st1
            = (Ok [b0; b1; b2; b3],
               mkState (nread st + 7) (wlog st ++ [frame; [0xCC]]) (nlog st))).
  { apply (delivers_app d st [0xCC]) in Hd as [_ Hd].
    rewrite (RecvPacket_reads_frame d fuel st1 0 [b0; b1; b2; b3]);
      [| cbv; split; discriminate | exact Hd | apply Hw | lia].
    unfold st1. cbn [nread wlog nlog length]. rewrite <- app_assoc.
    do 2 f_equal. lia. }
  unfold GetChipID. fold frame. unfold bindM at 1. rewrite Hsend.
  unfold bindM at 1. rewrite Hrecv.
  change (len [b0; b1; b2; b3] =? 4) with true. cbn [negb].
  unfold bindM, liftR, retM. cbn [index lookup list_lookup].
  now rewrite decode_be32.
Qed.

Lemma GetChipID_exchange_witness :
  GetChipID (bytes_port ([0xCC] ++ encodePacket [0xB9; 0x9A; 0x00; 0x2F])) 1 init
  = (Ok 0xB99A002F, mkState 7 [encodeCmdPacket COMMAND_GET_CHIP_ID []; [0xCC]] 0).
Proof.
  apply (GetChipID_exchange _ 1 init 0xB9 0x9A 0x00 0x2F);
    try (unfold is_byte; lia); try reflexivity.
  intros i b Hb. do 7 (destruct i as [|i]; [injection Hb as <-; reflexivity|]).
  discriminate Hb.
Defined.
